(** * WebSocket connection manager (backend/internal/websocket/manager.go)

    A shallow embedding of the Go connection manager: the [Manager]'s two
    maps, the [Client] objects they point to, the buffered [Send] channel
    of every client with Go's panics on misuse of a closed channel, and
    the dispatch / registration / reader functions. *)

From Stdlib Require Import ZArith String Ascii List DecimalString.
From stdpp Require Import base option gmap strings list fin_maps.

Local Open Scope string_scope.
#[local] Set Warnings "-register-all".

(** ** time.Time, as far as the manager looks at it *)

(** A reading of [time.Now()]: the civil fields that [Format] prints and
    the value of [UnixNano()]. *)
Record Time := mkTime {
  year : Z;
  month : N;
  day : N;
  hour : N;
  minute : N;
  second : N;
  unixNano : Z
}.

Fixpoint zeros (n : nat) : string :=
  match n with
  | O => ""
  | S n' => String "0" (zeros n')
  end.

(** [appendInt] of package time: decimal digits, zero-padded to [width],
    with a leading minus sign for a negative value. *)
Definition appendInt (x : Z) (width : nat) : string :=
  let digits := NilEmpty.string_of_uint (N.to_uint (Z.to_N (Z.abs x))) in
  let padded := zeros (width - String.length digits) +:+ digits in
  if (x <? 0)%Z then String "-" padded else padded.

(** [t.Format("20060102150405")]. *)
Definition Format (t : Time) : string :=
  appendInt (year t) 4 +:+ appendInt (Z.of_N (month t)) 2 +:+
  appendInt (Z.of_N (day t)) 2 +:+ appendInt (Z.of_N (hour t)) 2 +:+
  appendInt (Z.of_N (minute t)) 2 +:+ appendInt (Z.of_N (second t)) 2.

(** ** Messages *)

Abbreviation MessageType := string (only parsing).

Definition TypeDeviceData : MessageType := "device_data".
Definition TypeDeviceStatus : MessageType := "device_status".
Definition TypeNotification : MessageType := "notification".
Definition TypeHeartbeat : MessageType := "heartbeat".
Definition TypeSubscribe : MessageType := "subscribe".
Definition TypeUnsubscribe : MessageType := "unsubscribe".
Definition TypeError : MessageType := "error".

(** The dynamic value held by [Data interface{}].  [VObject] is
    [map[string]interface{}] (what the JSON decoder produces for an
    object), [VStringMap] is [map[string]string] (what the manager itself
    builds); a type assertion tells them apart. *)
Inductive Value :=
| VNil
| VBool (b : bool)
| VNumber (n : Z)
| VString (s : string)
| VArray (l : list Value)
| VObject (o : list (string * Value))
| VStringMap (o : list (string * string)).

Record Message := mkMessage {
  Type_ : MessageType;
  Data : Value;
  Error : string;
  Timestamp : Time;
  MsgID : string
}.

(** [data[key]] on a decoded object: the value and whether it exists. *)
Fixpoint objectGet (key : string) (o : list (string * Value)) : option Value :=
  match o with
  | [] => None
  | (k, v) :: o' => if String.eqb k key then Some v else objectGet key o'
  end.

(** ** Buffered channels of messages *)

Record Chan := mkChan {
  buf : list Message;
  cap : nat;
  closed : bool
}.

Definition makeChan (n : nat) : Chan :=
  {| buf := []; cap := n; closed := false |}.

(** The three ways [select { case ch <- m: ... default: ... }] can go. *)
Inductive SendCase :=
| Sent (ch : Chan)
| WouldBlock
| SendOnClosed.

Definition trySend (ch : Chan) (m : Message) : SendCase :=
  if closed ch then SendOnClosed
  else if (length (buf ch) <? cap ch)%nat
       then Sent {| buf := buf ch ++ [m]; cap := cap ch; closed := false |}
       else WouldBlock.

(** [close(ch)]; [None] is the run-time panic on a closed channel. *)
Definition closeChan (ch : Chan) : option Chan :=
  if closed ch then None
  else Some {| buf := buf ch; cap := cap ch; closed := true |}.

Definition full (ch : Chan) : bool := negb (length (buf ch) <? cap ch)%nat.

(** ** Clients and the manager *)

Abbreviation ptr := nat (only parsing).

Inductive ConnState := ConnOpen | ConnClosed.

Record Client := mkClient {
  ID : string;
  UserID : N;
  Conn : ConnState;
  Send : Chan;
  Subscriptions : gmap string bool
}.

(** The manager's maps hold [*Client] pointers; [heap] is the store of
    the objects they point to, so that a client reached through
    [clients] and through [userClients] is one and the same object. *)
Record State := mkState {
  heap : gmap nat Client;
  clients : gmap string nat;
  userClients : gmap N (gmap string nat)
}.

Definition NewManager : State :=
  {| heap := ∅; clients := ∅; userClients := ∅ |}.

Inductive PanicKind :=
| SendOnClosedChannel
| CloseOfClosedChannel
| NilDereference
| IndexOutOfRange.

(** An operation either returns or panics; a panic keeps the state
    reached at the panicking statement. *)
Inductive Result :=
| Ok (s : State)
| Panic (why : PanicKind) (s : State).

Definition state_of (r : Result) : State :=
  match r with
  | Ok s => s
  | Panic _ s => s
  end.

Definition andThen (r : Result) (k : State → Result) : Result :=
  match r with
  | Ok s => k s
  | Panic why s => Panic why s
  end.

(** [for _, x := range xs { body }] over the entries of a map, taken in
    the order of the list.  Go leaves the order of a map range open; the
    loops below act on one distinct client per entry, so the order only
    decides which state a panicking loop stops in. *)
Fixpoint forEach {A} (body : A → State → Result) (xs : list A) (s : State)
  : Result :=
  match xs with
  | [] => Ok s
  | x :: xs' => andThen (body x s) (forEach body xs')
  end.

Definition setSend (ch : Chan) (c : Client) : Client :=
  {| ID := ID c; UserID := UserID c; Conn := Conn c; Send := ch;
     Subscriptions := Subscriptions c |}.

Definition setSubscriptions (subs : gmap string bool) (c : Client) : Client :=
  {| ID := ID c; UserID := UserID c; Conn := Conn c; Send := Send c;
     Subscriptions := subs |}.

Definition setConn (k : ConnState) (c : Client) : Client :=
  {| ID := ID c; UserID := UserID c; Conn := k; Send := Send c;
     Subscriptions := Subscriptions c |}.

Definition store (p : nat) (c : Client) (s : State) : State :=
  {| heap := <[p := c]> (heap s); clients := clients s;
     userClients := userClients s |}.

Definition welcomeMsg (now : Time) : Message :=
  {| Type_ := TypeNotification;
     Data := VStringMap [("message", "Connected successfully")];
     Error := ""; Timestamp := now; MsgID := "" |}.

(** [registerClient]. *)
Definition registerClient (now : Time) (p : nat) (s : State) : Result :=
  match heap s !! p with
  | None => Panic NilDereference s
  | Some c =>
    let inner := default ∅ (userClients s !! UserID c) in
    let s1 := {| heap := heap s;
                 clients := <[ID c := p]> (clients s);
                 userClients :=
                   <[UserID c := <[ID c := p]> inner]> (userClients s) |} in
    match trySend (Send c) (welcomeMsg now) with
    | Sent ch => Ok (store p (setSend ch c) s1)
    | WouldBlock =>
      match closeChan (Send c) with
      | Some ch => Ok (store p (setSend ch c) s1)
      | None => Panic CloseOfClosedChannel s1
      end
    | SendOnClosed => Panic SendOnClosedChannel s1
    end
  end.

(** [unregisterClient]. *)
Definition unregisterClient (p : nat) (s : State) : Result :=
  match heap s !! p with
  | None => Panic NilDereference s
  | Some c =>
    match clients s !! ID c with
    | Some _ =>
      let users :=
        match userClients s !! UserID c with
        | Some uc =>
          let uc' := delete (ID c) uc in
          if decide (size uc' = 0)
          then delete (UserID c) (userClients s)
          else <[UserID c := uc']> (userClients s)
        | None => userClients s
        end in
      let s1 := {| heap := heap s; clients := delete (ID c) (clients s);
                   userClients := users |} in
      match closeChan (Send c) with
      | Some ch => Ok (store p (setSend ch c) s1)
      | None => Panic CloseOfClosedChannel s1
      end
    | None => Ok s
    end
  end.

(** The statement shared by [SendToUser] and [SendToDevice]:
    [select { case client.Send <- message: default: close(client.Send) }]. *)
Definition sendOrClose (message : Message) (p : nat) (s : State) : Result :=
  match heap s !! p with
  | None => Panic NilDereference s
  | Some c =>
    match trySend (Send c) message with
    | Sent ch => Ok (store p (setSend ch c) s)
    | WouldBlock =>
      match closeChan (Send c) with
      | Some ch => Ok (store p (setSend ch c) s)
      | None => Panic CloseOfClosedChannel s
      end
    | SendOnClosed => Panic SendOnClosedChannel s
    end
  end.

(** The loop body of [broadcastMessage]: on a full mailbox the channel is
    closed and the client deleted from [clients] only. *)
Definition broadcastBody (message : Message) (e : string * nat) (s : State)
  : Result :=
  match heap s !! e.2 with
  | None => Panic NilDereference s
  | Some c =>
    match trySend (Send c) message with
    | Sent ch => Ok (store e.2 (setSend ch c) s)
    | WouldBlock =>
      match closeChan (Send c) with
      | Some ch =>
        Ok {| heap := <[e.2 := setSend ch c]> (heap s);
              clients := delete (ID c) (clients s);
              userClients := userClients s |}
      | None => Panic CloseOfClosedChannel s
      end
    | SendOnClosed => Panic SendOnClosedChannel s
    end
  end.

(** [broadcastMessage]; deleting the entry under the cursor does not
    disturb the range over the remaining entries. *)
Definition broadcastMessage (message : Message) (s : State) : Result :=
  forEach (broadcastBody message) (map_to_list (clients s)) s.

(** [SendToUser]. *)
Definition SendToUser (userID : N) (message : Message) (s : State) : Result :=
  match userClients s !! userID with
  | Some uc => forEach (λ e, sendOrClose message e.2) (map_to_list uc) s
  | None => Ok s
  end.

Definition subscribed (deviceID : string) (c : Client) : bool :=
  default false (Subscriptions c !! deviceID).

Definition deviceBody (deviceID : string) (message : Message)
    (e : string * nat) (s : State) : Result :=
  match heap s !! e.2 with
  | None => Panic NilDereference s
  | Some c =>
    if subscribed deviceID c then sendOrClose message e.2 s else Ok s
  end.

(** [SendToDevice]. *)
Definition SendToDevice (deviceID : string) (message : Message) (s : State)
  : Result :=
  forEach (deviceBody deviceID message) (map_to_list (clients s)) s.

Definition GetClientCount (s : State) : nat := size (clients s).

Definition GetUserClientCount (userID : N) (s : State) : nat :=
  match userClients s !! userID with
  | Some uc => size uc
  | None => 0
  end.

(** ** Session ids *)

Definition charset : string :=
  "abcdefghijklmnopqrstuvwxyzABCDEFGHIJKLMNOPQRSTUVWXYZ0123456789".

(** [charset[i]]; [None] is the index-out-of-range panic. *)
Definition charsetAt (i : Z) : option ascii :=
  if (i <? 0)%Z then None else String.get (Z.to_nat i) charset.

(** The loop of [generateRandomString]: byte [i] is picked by the [i]-th
    reading of the clock, [now i]. Go's [%] truncates towards zero. *)
Fixpoint randomBytes (now : nat → Time) (i length : nat)
  : option (list ascii) :=
  match length with
  | O => Some []
  | S length' =>
    match charsetAt (Z.rem (unixNano (now i))
                           (Z.of_nat (String.length charset))) with
    | None => None
    | Some b =>
      match randomBytes now (S i) length' with
      | None => None
      | Some bs => Some (b :: bs)
      end
    end
  end.

Definition generateRandomString (now : nat → Time) (length : nat)
  : option string :=
  string_of_list_ascii <$> randomBytes now 0 length.

(** [generateClientID]: [now 0] is the reading that is formatted,
    [now 1 .. now 8] are the readings taken by [generateRandomString]. *)
Definition generateClientID (now : nat → Time) : option string :=
  match generateRandomString (λ i, now (S i)) 8 with
  | None => None
  | Some suffix => Some (Format (now 0) +:+ "-" +:+ suffix)
  end.

(** [getUserIDFromContext]: the value stored under ["user_id"] when it is
    a [uint], otherwise 0, the anonymous user. *)
Definition anonymous : N := 0%N.

Definition getUserIDFromContext (user_id : option N) : N :=
  match user_id with
  | Some uid => uid
  | None => anonymous
  end.

(** [HandleWebSocket] after a successful upgrade: allocates the client
    and hands it to [registerClient] through the register channel.
    [now 0 .. now 8] are consumed by [generateClientID], [now 9] stamps
    the welcome message. *)
Definition HandleWebSocket (user_id : option N) (now : nat → Time)
    (s : State) : Result :=
  let userID := getUserIDFromContext user_id in
  match generateClientID now with
  | None => Panic IndexOutOfRange s
  | Some id =>
    let p := fresh (dom (heap s)) in
    let client := {| ID := id; UserID := userID; Conn := ConnOpen;
                     Send := makeChan 256; Subscriptions := ∅ |} in
    registerClient (now 9) p (store p client s)
  end.

(** ** The reader side *)

Definition subscribedMsg (now : Time) (deviceIDStr : string) : Message :=
  {| Type_ := TypeNotification;
     Data := VStringMap [("message", "Subscribed successfully");
                         ("device_id", deviceIDStr)];
     Error := ""; Timestamp := now; MsgID := "" |}.

Definition aliveMsg (now : Time) : Message :=
  {| Type_ := TypeHeartbeat;
     Data := VStringMap [("status", "alive")];
     Error := ""; Timestamp := now; MsgID := "" |}.

(** [select { case c.Send <- response: default: }]: a full mailbox drops
    the response. *)
Definition sendOrDrop (response : Message) (p : nat) (s : State) : Result :=
  match heap s !! p with
  | None => Panic NilDereference s
  | Some c =>
    match trySend (Send c) response with
    | Sent ch => Ok (store p (setSend ch c) s)
    | WouldBlock => Ok s
    | SendOnClosed => Panic SendOnClosedChannel s
    end
  end.

(** The three nested checks of [handleSubscribe] / [handleUnsubscribe]:
    [Data] is an object, it has ["device_id"], and that is a string. *)
Definition deviceIDOf (msg : Message) : option string :=
  match Data msg with
  | VObject data =>
    match objectGet "device_id" data with
    | Some (VString deviceIDStr) => Some deviceIDStr
    | _ => None
    end
  | _ => None
  end.

Definition handleSubscribe (now : Time) (p : nat) (msg : Message) (s : State)
  : Result :=
  match deviceIDOf msg with
  | Some deviceIDStr =>
    match heap s !! p with
    | None => Panic NilDereference s
    | Some c =>
      let c' := setSubscriptions (<[deviceIDStr := true]> (Subscriptions c)) c in
      sendOrDrop (subscribedMsg now deviceIDStr) p (store p c' s)
    end
  | None => Ok s
  end.

Definition handleUnsubscribe (p : nat) (msg : Message) (s : State) : Result :=
  match deviceIDOf msg with
  | Some deviceIDStr =>
    match heap s !! p with
    | None => Panic NilDereference s
    | Some c =>
      Ok (store p (setSubscriptions (delete deviceIDStr (Subscriptions c)) c) s)
    end
  | None => Ok s
  end.

Definition handleHeartbeat (now : Time) (p : nat) (s : State) : Result :=
  sendOrDrop (aliveMsg now) p s.

(** [handleMessage]; the default branch only logs. *)
Definition handleMessage (now : Time) (p : nat) (msg : Message) (s : State)
  : Result :=
  if String.eqb (Type_ msg) TypeSubscribe then handleSubscribe now p msg s
  else if String.eqb (Type_ msg) TypeUnsubscribe then handleUnsubscribe p msg s
  else if String.eqb (Type_ msg) TypeHeartbeat then handleHeartbeat now p s
  else Ok s.

(** What [c.Conn.ReadJSON(&msg)] can come back with: a decoded message,
    or an error, which is what a frame that is not a JSON encoding of a
    [Message] yields just like a broken transport does. *)
Inductive ReadFailure :=
| Undecodable
| UnexpectedClose
| ReadDeadlineExceeded
| ReadLimitExceeded.

Inductive ReadResult :=
| Decoded (msg : Message)
| ReadErr (e : ReadFailure).

Definition closeConn (p : nat) (s : State) : Result :=
  match heap s !! p with
  | None => Panic NilDereference s
  | Some c => Ok (store p (setConn ConnClosed c) s)
  end.

(** The deferred function of [readPump]: the client is sent to the
    unregister channel, where [Run] hands it to [unregisterClient]; then
    the connection is closed. *)
Definition readPumpExit (p : nat) (s : State) : Result :=
  andThen (unregisterClient p s) (closeConn p).

(** [readPump] over the successive results of [ReadJSON], each with the
    clock reading available while it is handled.  When the list is used up
    the reader is blocked in [ReadJSON]. *)
Fixpoint readPump (reads : list (Time * ReadResult)) (p : nat) (s : State)
  : Result :=
  match reads with
  | [] => Ok s
  | (now, Decoded msg) :: reads' =>
    andThen (handleMessage now p msg s) (readPump reads' p)
  | (_, ReadErr _) :: _ => readPumpExit p s
  end.

(** ** The writer side *)

(** One turn of the [case message, ok := <-c.Send] branch of [writePump];
    [writeOk] tells whether [WriteJSON] succeeds. An empty open mailbox
    leaves the writer blocked. *)
Definition writePumpStep (writeOk : bool) (p : nat) (s : State) : Result :=
  match heap s !! p with
  | None => Panic NilDereference s
  | Some c =>
    match buf (Send c) with
    | _ :: rest =>
      let c' := setSend {| buf := rest; cap := cap (Send c);
                           closed := closed (Send c) |} c in
      if writeOk then Ok (store p c' s)
      else Ok (store p (setConn ConnClosed c') s)
    | [] =>
      if closed (Send c) then Ok (store p (setConn ConnClosed c) s)
      else Ok s
    end
  end.

(** ** Runs of the manager *)

Inductive Op :=
| OpConnect (user_id : option N) (now : nat → Time)
| OpUnregister (p : nat)
| OpBroadcast (message : Message)
| OpSendToUser (userID : N) (message : Message)
| OpSendToDevice (deviceID : string) (message : Message)
| OpInbound (now : Time) (p : nat) (msg : Message)
| OpWrite (writeOk : bool) (p : nat).

Definition exec (op : Op) (s : State) : Result :=
  match op with
  | OpConnect user_id now => HandleWebSocket user_id now s
  | OpUnregister p => unregisterClient p s
  | OpBroadcast message => broadcastMessage message s
  | OpSendToUser userID message => SendToUser userID message s
  | OpSendToDevice deviceID message => SendToDevice deviceID message s
  | OpInbound now p msg => handleMessage now p msg s
  | OpWrite writeOk p => writePumpStep writeOk p s
  end.

Fixpoint run (ops : list Op) (s : State) : Result :=
  match ops with
  | [] => Ok s
  | op :: ops' => andThen (exec op s) (run ops')
  end.

(** * Invariants, predicates and sample inputs *)

(** ** Relations between states and invariants of the indices *)

(** Every pointer held by an index points to a client, filed under that
    client's own [ID] (and [UserID]). *)
Definition indexed (s : State) : Prop :=
  (∀ i p, clients s !! i = Some p → ∃ c, heap s !! p = Some c ∧ ID c = i) ∧
  (∀ u uc i p, userClients s !! u = Some uc → uc !! i = Some p →
     ∃ c, heap s !! p = Some c ∧ ID c = i ∧ UserID c = u).

(** Clients are never freed and never change [ID] or [UserID]. *)
Definition heap_grows (s s' : State) : Prop :=
  ∀ p c, heap s !! p = Some c →
    ∃ c', heap s' !! p = Some c' ∧ ID c' = ID c ∧ UserID c' = UserID c.

(** [shrinks s s']: from [s] to [s'] clients keep their identity and
    index entries are at most removed.  Every operation except
    registration is of this kind. *)
Definition shrinks (s s' : State) : Prop :=
  heap_grows s s' ∧
  (∀ i p, clients s' !! i = Some p → clients s !! i = Some p) ∧
  (∀ u uc' i p, userClients s' !! u = Some uc' → uc' !! i = Some p →
     ∃ uc, userClients s !! u = Some uc ∧ uc !! i = Some p).

(** Registration is the one operation that adds index entries. *)
Definition registered_maps (p : nat) (c : Client) (s : State) : State :=
  {| heap := heap s;
     clients := <[ID c := p]> (clients s);
     userClients :=
       <[UserID c := <[ID c := p]> (default ∅ (userClients s !! UserID c))]>
         (userClients s) |}.

(** Steps that touch the heap only. *)
Definition only_heap (s s' : State) : Prop :=
  heap_grows s s' ∧ clients s' = clients s ∧ userClients s' = userClients s.

Definition in_clients (s : State) (id : string) : option nat := clients s !! id.

Definition in_userClients (s : State) (userID : N) (id : string) : option nat :=
  userClients s !! userID ≫= (λ uc, uc !! id).

Definition mailbox (s : State) (p : nat) : option (nat * bool) :=
  (λ c, (length (buf (Send c)), closed (Send c))) <$> heap s !! p.

(** What the code maintains: every primary entry has its entry in the
    user index under the client's user id (0 for anonymous clients), and
    every entry of the user index has its primary entry. *)
Definition consistent (s : State) : Prop :=
  indexed s ∧
  (∀ i p, clients s !! i = Some p →
     ∃ c, heap s !! p = Some c ∧ in_userClients s (UserID c) i = Some p) ∧
  (∀ u i p, in_userClients s u i = Some p → clients s !! i = Some p).

Definition ids (s : State) : list string :=
  (λ e, ID e.2) <$> map_to_list (heap s).

(** No two clients allocated so far carry the same id. *)
Definition ids_inj (s : State) : Prop :=
  ∀ p q c d, heap s !! p = Some c → heap s !! q = Some d → ID c = ID d → p = q.

(** Along the run, no broadcast deletes a session from the primary map. *)
Fixpoint no_eviction (ops : list Op) (s : State) : Prop :=
  match ops with
  | [] => True
  | op :: ops' =>
    match op with
    | OpBroadcast _ => clients (state_of (exec op s)) = clients s
    | _ => True
    end ∧
    match exec op s with
    | Ok s' => no_eviction ops' s'
    | Panic _ _ => True
    end
  end.

(** [quiet_on p T h]: the client at [p] exists and is not subscribed to
    [T]. *)
Definition quiet_on (p : nat) (T : string) (h : gmap nat Client) : Prop :=
  ∃ c, h !! p = Some c ∧ subscribed T c = false.

Definition resubscribes (p : nat) (T : string) (op : Op) : bool :=
  match op with
  | OpInbound _ q msg =>
    (q =? p)%nat && String.eqb (Type_ msg) TypeSubscribe
    && bool_decide (deviceIDOf msg = Some T)
  | _ => false
  end.

(** ** The effect of a dispatch on a client *)

(** The effect of one [select] with the closing default on a client whose
    channel is open: the message joins the tail of the mailbox if there is
    room, otherwise the channel is closed. *)
Definition attempt (message : Message) (c : Client) : Client :=
  match trySend (Send c) message with
  | Sent ch => setSend ch c
  | WouldBlock =>
    setSend {| buf := buf (Send c); cap := cap (Send c); closed := true |} c
  | SendOnClosed => c
  end.

Definition guardedSend (g : Client → bool) (message : Message)
    (e : string * nat) (s : State) : Result :=
  match heap s !! e.2 with
  | None => Panic NilDereference s
  | Some c => if g c then sendOrClose message e.2 s else Ok s
  end.

(** [registered s p c]: the client [c] at [p] is in the primary map. *)
Definition registered (s : State) (p : nat) (c : Client) : bool :=
  bool_decide (clients s !! ID c = Some p).

(** [registered_under userID s p c]: the client [c] at [p] is filed under
    [userID] in the user index. *)
Definition registered_under (userID : N) (s : State) (p : nat) (c : Client)
  : bool :=
  match userClients s !! userID with
  | Some uc => bool_decide (uc !! ID c = Some p)
  | None => false
  end.

Definition open_or_skipped (g : Client → bool) (s : State) (e : string * nat)
  : bool :=
  match heap s !! e.2 with
  | Some c => implb (g c) (negb (closed (Send c)))
  | None => true
  end.

(** No registered subscriber of [deviceID] has a closed mailbox channel. *)
Definition subscribers_open (deviceID : string) (s : State) : bool :=
  forallb (open_or_skipped (subscribed deviceID) s) (map_to_list (clients s)).

(** No session filed under [userID] has a closed mailbox channel. *)
Definition sessions_open (userID : N) (s : State) : bool :=
  match userClients s !! userID with
  | Some uc => forallb (open_or_skipped (λ _, true) s) (map_to_list uc)
  | None => true
  end.

(** ** Frames the reader does not act on *)

(** A decoded frame is ignored when its type is none of subscribe,
    unsubscribe and heartbeat, or when it is a subscribe or unsubscribe
    whose data is not an object with a string ["device_id"]. *)
Definition ignored (msg : Message) : bool :=
  if String.eqb (Type_ msg) TypeSubscribe
     || String.eqb (Type_ msg) TypeUnsubscribe
  then match deviceIDOf msg with
       | Some _ => false
       | None => true
       end
  else negb (String.eqb (Type_ msg) TypeHeartbeat).

(** ** Properties in the wording of the specification *)

(** The registry invariant in the words of the specification: an id is in
    the user index iff it is in the primary map and the session has an
    identity. *)
Definition spec_registry_consistent (s : State) : Prop :=
  ∀ p c, heap s !! p = Some c →
    (in_userClients s (UserID c) (ID c) = Some p ↔
     in_clients s (ID c) = Some p ∧ UserID c ≠ anonymous).

(** The answer the specification expects to a malformed frame: one more
    message in the session's own mailbox, of type error. *)
Definition answered_with_error (s s' : State) (p : nat) : Prop :=
  ∃ (c c' : Client) (e : Message),
    heap s !! p = Some c ∧ heap s' !! p = Some c' ∧
    buf (Send c') = (buf (Send c) ++ [e])%list ∧ Type_ e = TypeError.

(** ** Sample inputs and runs *)

Definition demo_clock (sec : N) (i : nat) : Time :=
  mkTime 2024 5 17 9 3 sec
         (1715936580000000000 + Z.of_N sec * 1000000000 + Z.of_nat i * 37).

Definition subscribeFrame (deviceID : string) : Message :=
  {| Type_ := TypeSubscribe; Data := VObject [("device_id", VString deviceID)];
     Error := ""; Timestamp := demo_clock 0 0; MsgID := "" |}.

Definition unsubscribeFrame (deviceID : string) : Message :=
  {| Type_ := TypeUnsubscribe; Data := VObject [("device_id", VString deviceID)];
     Error := ""; Timestamp := demo_clock 0 0; MsgID := "" |}.

Definition telemetry : Message :=
  {| Type_ := TypeDeviceData;
     Data := VObject [("device_id", VString "dev-1"); ("value", VNumber 21)];
     Error := ""; Timestamp := demo_clock 30 0; MsgID := "" |}.

Definition notice : Message :=
  {| Type_ := TypeNotification;
     Data := VObject [("action", VString "device_created")];
     Error := ""; Timestamp := demo_clock 31 0; MsgID := "" |}.

Definition misshapen : Message :=
  {| Type_ := TypeSubscribe; Data := VString "dev-1"; Error := "";
     Timestamp := demo_clock 0 0; MsgID := "" |}.

(** Sessions 0 and 1 belong to user 7, session 2 is anonymous; session 0
    subscribes to dev-1. *)
Definition demo_ops : list Op :=
  [OpConnect (Some 7%N) (demo_clock 1);
   OpConnect (Some 7%N) (demo_clock 2);
   OpConnect None (demo_clock 3);
   OpInbound (demo_clock 4 0) 0 (subscribeFrame "dev-1")].

Definition demo_state : State := Eval vm_compute in state_of (run demo_ops NewManager).

(** One session of user 7 subscribes to dev-1 and is then sent 254
    readings of that device which its writer never drains: with the
    welcome message and the subscription acknowledgement its mailbox holds
    256 messages. *)
Definition saturating_ops : list Op :=
  OpConnect (Some 7%N) (demo_clock 1)
  :: OpInbound (demo_clock 4 0) 0 (subscribeFrame "dev-1")
  :: repeat (OpSendToDevice "dev-1" telemetry) 254.

Definition saturated : State :=
  Eval vm_compute in state_of (run saturating_ops NewManager).

Definition session0_id : string := "20240517090301-fQr2DePq".

Definition calm_ops : list Op :=
  demo_ops ++ [OpBroadcast notice; OpSendToUser 7 notice; OpUnregister 1].

Definition calm_state : State :=
  Eval vm_compute in state_of (run calm_ops NewManager).

(** Two session ids that collide: the second connection is made 6.2
    microseconds after the first, every clock reading of the second is
    later than every reading of the first. *)
Definition clockA (i : nat) : Time := demo_clock 1 i.

Definition clockB (i : nat) : Time :=
  mkTime 2024 5 17 9 3 1 (unixNano (demo_clock 1 i) + 6200).

(** ** Broadcast *)

(** No client in the primary map has a closed mailbox channel. *)
Definition registered_open (s : State) : bool :=
  forallb (open_or_skipped (λ _, true) s) (map_to_list (clients s)).

(** ** Counting sessions *)

(** The sum of [GetUserClientCount] over the users that have a bucket in
    the user index. *)
Definition indexedCount (s : State) : nat :=
  map_fold (λ _ (uc : gmap string nat) n, size uc + n) 0 (userClients s).

Definition no_empty_bucket (s : State) : Prop :=
  ∀ u uc, userClients s !! u = Some uc → uc ≠ ∅.

(** [no_eviction] as a check that can be run. *)
Fixpoint no_evictionb (ops : list Op) (s : State) : bool :=
  match ops with
  | [] => true
  | op :: ops' =>
    match op with
    | OpBroadcast _ => bool_decide (clients (state_of (exec op s)) = clients s)
    | _ => true
    end &&
    match exec op s with
    | Ok s' => no_evictionb ops' s'
    | Panic _ _ => true
    end
  end.

(** ** The writer loop *)

(** What the writer puts on the wire. *)
Inductive WireFrame :=
| TextJSON (message : Message)
| CloseMessage
| PingMessage.

(** Which case of the [select] in [writePump] fires, and whether the
    write it leads to succeeds. *)
Inductive WriterEvent :=
| MailboxReady (writeOk : bool)
| TickerFired (pingOk : bool).

(** [writePump] over the successive cases that fire, with the frames that
    reach the wire.  The loop ends (and the deferred function closes the
    connection) after the close frame, after a failed [WriteJSON] and
    after a failed ping; the events that follow are not looked at.  The
    mailbox case cannot fire on an empty open channel: such an event is
    passed over.  When the list is used up the writer is blocked in the
    [select]. *)
Fixpoint writePump (events : list WriterEvent) (p : nat) (s : State)
  : Result * list WireFrame :=
  match events with
  | [] => (Ok s, [])
  | MailboxReady writeOk :: events' =>
    match heap s !! p with
    | None => (Panic NilDereference s, [])
    | Some c =>
      match buf (Send c) with
      | message :: _ =>
        if writeOk
        then let r := writePump events' p (state_of (writePumpStep true p s)) in
             (r.1, TextJSON message :: r.2)
        else (writePumpStep false p s, [])
      | [] =>
        if closed (Send c)
        then (writePumpStep writeOk p s, if writeOk then [CloseMessage] else [])
        else writePump events' p s
      end
    end
  | TickerFired pingOk :: events' =>
    if pingOk
    then let r := writePump events' p s in (r.1, PingMessage :: r.2)
    else (closeConn p s, [])
  end.

Definition dequeued (n : nat) (c : Client) : Client :=
  setSend {| buf := drop n (buf (Send c)); cap := cap (Send c);
             closed := closed (Send c) |} c.

(** ** The authentication middleware in front of the manager *)

Module middleware.

Record Claims := mkClaims {
  UserID : N;
  Username : string;
  Role : string
}.

(** The dynamic values held by the keys of a [gin.Context]. *)
Inductive Any :=
| AUint (n : N)
| AInt (z : Z)
| AString (s : string)
| AClaims (claims : Claims).

(** What [extractToken] reads from a request: [c.GetHeader] and [c.Query]
    give the empty string for a missing header or parameter, [c.Cookie]
    gives an error ([None]) for a missing cookie. *)
Record Request := mkRequest {
  Authorization : string;
  tokenQuery : string;
  accessTokenCookie : option string
}.

Fixpoint stripPrefix (prefix s : string) : option string :=
  match prefix with
  | "" => Some s
  | String a prefix' =>
    match s with
    | String b s' => if Ascii.eqb a b then stripPrefix prefix' s' else None
    | "" => None
    end
  end.

(** [strings.HasPrefix] and [strings.TrimPrefix]. *)
Definition HasPrefix (s prefix : string) : bool :=
  match stripPrefix prefix s with
  | Some _ => true
  | None => false
  end.

Definition TrimPrefix (s prefix : string) : string :=
  default s (stripPrefix prefix s).

(** [extractToken]. *)
Definition extractToken (r : Request) : string :=
  let bearerToken := Authorization r in
  if negb (String.eqb bearerToken "") && HasPrefix bearerToken "Bearer "
  then TrimPrefix bearerToken "Bearer "
  else
    let token := tokenQuery r in
    if negb (String.eqb token "") then token
    else
      match accessTokenCookie r with
      | Some cookie => if negb (String.eqb cookie "") then cookie else ""
      | None => ""
      end.

Inductive AuthFailure :=
| MissingToken
| InvalidToken.

(** A middleware either passes the request on with its keys or aborts it
    with a status. *)
Inductive Handled :=
| Next (keys : gmap string Any)
| Abort (status : nat) (why : AuthFailure).

Definition setClaims (claims : Claims) (keys : gmap string Any)
  : gmap string Any :=
  <["claims" := AClaims claims]>
    (<["role" := AString (Role claims)]>
       (<["username" := AString (Username claims)]>
          (<["user_id" := AUint (UserID claims)]> keys))).

Section WithParser.

(** [ParseToken] checks the signature and the expiry of a JWT; it is taken
    as given. *)
Variable ParseToken : string → option Claims.

(** [AuthRequired]. *)
Definition AuthRequired (r : Request) (keys : gmap string Any) : Handled :=
  let token := extractToken r in
  if String.eqb token "" then Abort 401 MissingToken
  else
    match ParseToken token with
    | None => Abort 401 InvalidToken
    | Some claims => Next (setClaims claims keys)
    end.

(** [OptionalAuth]: never aborts. *)
Definition OptionalAuth (r : Request) (keys : gmap string Any)
  : gmap string Any :=
  let token := extractToken r in
  if negb (String.eqb token "")
  then match ParseToken token with
       | Some claims => setClaims claims keys
       | None => keys
       end
  else keys.

End WithParser.

(** [GetUserID]: the type assertion is unchecked, so a ["user_id"] of
    another type panics ([None]). *)
Definition GetUserID (keys : gmap string Any) : option N :=
  match keys !! "user_id" with
  | Some (AUint uid) => Some uid
  | Some _ => None
  | None => Some 0%N
  end.

End middleware.

(** What [c.Get("user_id")] followed by the checked assertion to [uint]
    yields in [getUserIDFromContext]. *)
Definition contextUserID (keys : gmap string middleware.Any) : option N :=
  match keys !! "user_id" with
  | Some (middleware.AUint uid) => Some uid
  | _ => None
  end.

(** The route [GET /ws]: [OptionalAuth], then [HandleWebSocket]. *)
Definition wsRoute (ParseToken : string → option middleware.Claims)
    (r : middleware.Request) (keys : gmap string middleware.Any)
    (now : nat → Time) (s : State) : Result :=
  HandleWebSocket (contextUserID (middleware.OptionalAuth ParseToken r keys))
                  now s.

(** A token parser for the sample requests: one token is valid. *)
Definition demo_parser (token : string) : option middleware.Claims :=
  if String.eqb token "good"
  then Some (middleware.mkClaims 7 "alice" "user")
  else None.

(** * Proofs *)

(** ** Generic facts about loops and results *)

Lemma forEach_inv {A} (P : State → Prop) (body : A → State → Result) xs s :
  P s →
  (∀ x s0, x ∈ xs → P s0 → P (state_of (body x s0))) →
  P (state_of (forEach body xs s)).
Proof.
  revert s. induction xs as [|x xs IH]; intros s Hs Hbody; simpl; [done|].
  pose proof (Hbody x s ltac:(left) Hs) as Hx.
  destruct (body x s) as [s1|why s1]; simpl in *; [|done].
  apply IH; [done|]. intros y s0 Hy. apply Hbody. by right.
Qed.

Lemma forEach_ext {A} (f g : A → State → Result) xs s :
  (∀ x s0, f x s0 = g x s0) → forEach f xs s = forEach g xs s.
Proof.
  intros Hfg. revert s. induction xs as [|x xs IH]; intros s; simpl; [done|].
  rewrite Hfg. destruct (g x s); simpl; auto.
Qed.

Lemma state_of_andThen (P : State → Prop) r k :
  P (state_of r) → (∀ s, r = Ok s → P (state_of (k s))) →
  P (state_of (andThen r k)).
Proof. destruct r; simpl; auto. Qed.

(** ** Invariants of the two indices *)

Lemma heap_grows_refl s : heap_grows s s.
Proof. intros p c H. eauto. Qed.

Lemma heap_grows_trans s1 s2 s3 :
  heap_grows s1 s2 → heap_grows s2 s3 → heap_grows s1 s3.
Proof.
  intros H12 H23 p c H. destruct (H12 p c H) as (c2 & H2 & Hi & Hu).
  destruct (H23 p c2 H2) as (c3 & H3 & Hi3 & Hu3).
  exists c3. split; [done|]. split; congruence.
Qed.

(** A step that keeps the identity of every client and only removes
    index entries, keeps [indexed]. *)
Lemma indexed_shrink s s' :
  indexed s → heap_grows s s' →
  (∀ i p, clients s' !! i = Some p → clients s !! i = Some p) →
  (∀ u uc' i p, userClients s' !! u = Some uc' → uc' !! i = Some p →
     ∃ uc, userClients s !! u = Some uc ∧ uc !! i = Some p) →
  indexed s'.
Proof.
  intros [Hc Hu] Hg Hc' Hu'. split.
  - intros i p Hp. destruct (Hc i p (Hc' _ _ Hp)) as (c & Hh & Hi).
    destruct (Hg p c Hh) as (c' & ? & ? & ?). exists c'. split; [done|congruence].
  - intros u uc' i p H1 H2. destruct (Hu' _ _ _ _ H1 H2) as (uc & H3 & H4).
    destruct (Hu u uc i p H3 H4) as (c & Hh & Hi & Hui).
    destruct (Hg p c Hh) as (c' & ? & ? & ?). exists c'.
    split; [done|]. split; congruence.
Qed.

Lemma heap_grows_store s p c c' :
  heap s !! p = Some c → ID c' = ID c → UserID c' = UserID c →
  heap_grows s (store p c' s).
Proof.
  intros Hp Hi Hu q d Hq. simpl. destruct (decide (p = q)) as [->|Hne].
  - rewrite lookup_insert_eq. exists c'. split; [done|]. split; congruence.
  - rewrite lookup_insert_ne by done. eauto.
Qed.

Lemma indexed_store s p c c' :
  indexed s → heap s !! p = Some c → ID c' = ID c → UserID c' = UserID c →
  indexed (store p c' s).
Proof.
  intros Hs Hp Hi Hu. eapply indexed_shrink; eauto using heap_grows_store.
Qed.

Lemma shrinks_refl s : shrinks s s.
Proof. split; [apply heap_grows_refl|]. split; eauto. Qed.

Lemma shrinks_trans s1 s2 s3 : shrinks s1 s2 → shrinks s2 s3 → shrinks s1 s3.
Proof.
  intros (Hg1 & Hc1 & Hu1) (Hg2 & Hc2 & Hu2).
  split; [eauto using heap_grows_trans|]. split; [eauto|].
  intros u uc' i p H1 H2. destruct (Hu2 _ _ _ _ H1 H2) as (uc & H3 & H4). eauto.
Qed.

Lemma shrinks_indexed s s' : shrinks s s' → indexed s → indexed s'.
Proof. intros (Hg & Hc & Hu) Hs. eapply indexed_shrink; eauto. Qed.

Lemma shrinks_store s p c c' :
  heap s !! p = Some c → ID c' = ID c → UserID c' = UserID c →
  shrinks s (store p c' s).
Proof.
  intros Hp Hi Hu. split; [eauto using heap_grows_store|]. split; simpl; eauto.
Qed.

Create HintDb shrink.
#[local] Hint Resolve shrinks_refl shrinks_store : shrink.

Ltac shrink_cases :=
  repeat match goal with
  | |- context [match ?x with _ => _ end] => destruct x eqn:?; simpl
  end; eauto with shrink.

Lemma sendOrClose_shrinks message p s :
  shrinks s (state_of (sendOrClose message p s)).
Proof. unfold sendOrClose. shrink_cases. Qed.

Lemma sendOrDrop_shrinks response p s :
  shrinks s (state_of (sendOrDrop response p s)).
Proof. unfold sendOrDrop. shrink_cases. Qed.

Lemma closeConn_shrinks p s : shrinks s (state_of (closeConn p s)).
Proof. unfold closeConn. shrink_cases. Qed.

Lemma writePumpStep_shrinks writeOk p s :
  shrinks s (state_of (writePumpStep writeOk p s)).
Proof. unfold writePumpStep. shrink_cases. Qed.

Lemma broadcastBody_shrinks message e s :
  shrinks s (state_of (broadcastBody message e s)).
Proof.
  unfold broadcastBody. shrink_cases.
  split; [|split]; simpl.
  - change (heap_grows s (store e.2 (setSend c0 c) s)).
    eauto using heap_grows_store.
  - intros i p Hp. apply lookup_delete_Some in Hp. tauto.
  - eauto.
Qed.

Lemma forEach_shrinks {A} (body : A → State → Result) xs s :
  (∀ x s0, shrinks s0 (state_of (body x s0))) →
  shrinks s (state_of (forEach body xs s)).
Proof.
  intros Hbody. apply (forEach_inv (shrinks s)); [apply shrinks_refl|].
  intros x s0 _ Hs0. eapply shrinks_trans; eauto.
Qed.

Lemma broadcastMessage_shrinks message s :
  shrinks s (state_of (broadcastMessage message s)).
Proof. apply forEach_shrinks. intros. apply broadcastBody_shrinks. Qed.

Lemma SendToUser_shrinks userID message s :
  shrinks s (state_of (SendToUser userID message s)).
Proof.
  unfold SendToUser. destruct (userClients s !! userID); simpl.
  - apply forEach_shrinks. intros. apply sendOrClose_shrinks.
  - apply shrinks_refl.
Qed.

Lemma deviceBody_shrinks deviceID message e s :
  shrinks s (state_of (deviceBody deviceID message e s)).
Proof.
  unfold deviceBody. destruct (heap s !! e.2); simpl; [|apply shrinks_refl].
  destruct (subscribed deviceID c); [apply sendOrClose_shrinks|apply shrinks_refl].
Qed.

Lemma SendToDevice_shrinks deviceID message s :
  shrinks s (state_of (SendToDevice deviceID message s)).
Proof. apply forEach_shrinks. intros. apply deviceBody_shrinks. Qed.

Lemma unregisterClient_shrinks p s :
  shrinks s (state_of (unregisterClient p s)).
Proof.
  unfold unregisterClient.
  destruct (heap s !! p) as [c|] eqn:Hp; simpl; [|apply shrinks_refl].
  destruct (clients s !! ID c) as [q|] eqn:Hq; simpl; [|apply shrinks_refl].
  set (users := match userClients s !! UserID c with
                | Some uc => _ | None => _ end).
  assert (Husers : ∀ u uc' i r, users !! u = Some uc' → uc' !! i = Some r →
            ∃ uc, userClients s !! u = Some uc ∧ uc !! i = Some r).
  { subst users. intros u uc' i r H1 H2.
    destruct (userClients s !! UserID c) as [uc|] eqn:Hu; [|eauto].
    destruct (decide (size (delete (ID c) uc) = 0)).
    - apply lookup_delete_Some in H1 as [_ H1]. eauto.
    - destruct (decide (UserID c = u)) as [<-|Hne].
      + rewrite lookup_insert_eq in H1. injection H1 as <-.
        apply lookup_delete_Some in H2 as [_ H2]. eauto.
      + rewrite lookup_insert_ne in H1 by done. eauto. }
  assert (Hmaps : shrinks s {| heap := heap s; clients := delete (ID c) (clients s);
                               userClients := users |}).
  { split; [intros r d Hr; simpl; eauto|]. split; simpl; [|done].
    intros i r Hr. apply lookup_delete_Some in Hr. tauto. }
  destruct (closeChan (Send c)) as [ch|]; simpl; [|done].
  eapply shrinks_trans; [exact Hmaps|].
  match goal with |- shrinks ?s1 _ => apply (shrinks_store s1 p c) end; done.
Qed.

Lemma handleSubscribe_shrinks now p msg s :
  shrinks s (state_of (handleSubscribe now p msg s)).
Proof.
  unfold handleSubscribe. destruct (deviceIDOf msg); [|apply shrinks_refl].
  destruct (heap s !! p) as [c|] eqn:Hp; simpl; [|apply shrinks_refl].
  eapply shrinks_trans; [|apply sendOrDrop_shrinks]. eauto with shrink.
Qed.

Lemma handleUnsubscribe_shrinks p msg s :
  shrinks s (state_of (handleUnsubscribe p msg s)).
Proof. unfold handleUnsubscribe. shrink_cases. Qed.

Lemma handleMessage_shrinks now p msg s :
  shrinks s (state_of (handleMessage now p msg s)).
Proof.
  unfold handleMessage, handleHeartbeat.
  repeat case_match; auto using handleSubscribe_shrinks,
    handleUnsubscribe_shrinks, sendOrDrop_shrinks, shrinks_refl.
Qed.

Lemma readPumpExit_shrinks p s : shrinks s (state_of (readPumpExit p s)).
Proof.
  unfold readPumpExit. apply (state_of_andThen (shrinks s)).
  - apply unregisterClient_shrinks.
  - intros s1 H1. eapply shrinks_trans; [|apply closeConn_shrinks].
    pose proof (unregisterClient_shrinks p s) as H. by rewrite H1 in H.
Qed.

Lemma readPump_shrinks reads p s : shrinks s (state_of (readPump reads p s)).
Proof.
  revert s. induction reads as [|[now [msg|e]] reads IH]; intros s; simpl.
  - apply shrinks_refl.
  - apply (state_of_andThen (shrinks s)); [apply handleMessage_shrinks|].
    intros s1 H1. eapply shrinks_trans; [|apply IH].
    pose proof (handleMessage_shrinks now p msg s) as H. by rewrite H1 in H.
  - apply readPumpExit_shrinks.
Qed.

Lemma registered_maps_indexed p c s :
  heap s !! p = Some c → indexed s → indexed (registered_maps p c s).
Proof.
  intros Hp [Hc Hu]. split; simpl.
  - intros i q Hq. apply lookup_insert_Some in Hq as [[<- <-]|[_ Hq]]; eauto.
  - intros u uc i q H1 H2.
    apply lookup_insert_Some in H1 as [[<- <-]|[Hne H1]]; [|eauto].
    apply lookup_insert_Some in H2 as [[<- <-]|[_ H2]]; [eauto|].
    destruct (userClients s !! UserID c) as [uc|] eqn:Huc; simpl in H2; [eauto|].
    by rewrite lookup_empty in H2.
Qed.

Lemma registerClient_cases now p s :
  match heap s !! p with
  | None => state_of (registerClient now p s) = s
  | Some c =>
    state_of (registerClient now p s) = registered_maps p c s ∨
    ∃ ch, state_of (registerClient now p s)
          = store p (setSend ch c) (registered_maps p c s)
  end.
Proof.
  unfold registerClient. destruct (heap s !! p) as [c|]; [|done].
  fold (registered_maps p c s).
  destruct (trySend (Send c) (welcomeMsg now)); simpl; eauto.
  destruct (closeChan (Send c)); simpl; eauto.
Qed.

Lemma registerClient_heap_grows now p s :
  heap_grows s (state_of (registerClient now p s)).
Proof.
  pose proof (registerClient_cases now p s) as H.
  destruct (heap s !! p) as [c|] eqn:Hp.
  - destruct H as [->|[ch ->]].
    + intros q d Hq. simpl. eauto.
    + intros q d Hq.
      apply (heap_grows_store (registered_maps p c s) p c); done.
  - rewrite H. apply heap_grows_refl.
Qed.

Lemma registerClient_indexed now p s :
  indexed s → indexed (state_of (registerClient now p s)).
Proof.
  intros Hs. pose proof (registerClient_cases now p s) as H.
  destruct (heap s !! p) as [c|] eqn:Hp.
  - destruct H as [->|[ch ->]].
    + by apply registered_maps_indexed.
    + apply (indexed_store _ p c); [by apply registered_maps_indexed|done..].
  - by rewrite H.
Qed.

Lemma fresh_ptr_None (s : State) : heap s !! fresh (dom (heap s)) = None.
Proof. apply not_elem_of_dom. apply is_fresh. Qed.

Lemma alloc_heap_grows s c : heap_grows s (store (fresh (dom (heap s))) c s).
Proof.
  intros q d Hq. simpl. exists d.
  rewrite lookup_insert_ne; [done|].
  intros <-. by rewrite fresh_ptr_None in Hq.
Qed.

Lemma alloc_indexed s c :
  indexed s → indexed (store (fresh (dom (heap s))) c s).
Proof.
  intros Hs. eapply indexed_shrink; [exact Hs|apply alloc_heap_grows|..];
    simpl; eauto.
Qed.

Lemma HandleWebSocket_heap_grows user_id now s :
  heap_grows s (state_of (HandleWebSocket user_id now s)).
Proof.
  unfold HandleWebSocket.
  destruct (generateClientID now); simpl; [|apply heap_grows_refl].
  eapply heap_grows_trans; [apply alloc_heap_grows|].
  apply registerClient_heap_grows.
Qed.

Lemma HandleWebSocket_indexed user_id now s :
  indexed s → indexed (state_of (HandleWebSocket user_id now s)).
Proof.
  intros Hs. unfold HandleWebSocket.
  destruct (generateClientID now); simpl; [|done].
  by apply registerClient_indexed, alloc_indexed.
Qed.

Lemma exec_heap_grows op s : heap_grows s (state_of (exec op s)).
Proof.
  destruct op; simpl.
  - apply HandleWebSocket_heap_grows.
  - apply unregisterClient_shrinks.
  - apply broadcastMessage_shrinks.
  - apply SendToUser_shrinks.
  - apply SendToDevice_shrinks.
  - apply handleMessage_shrinks.
  - apply writePumpStep_shrinks.
Qed.

Lemma exec_indexed op s : indexed s → indexed (state_of (exec op s)).
Proof.
  destruct op; simpl.
  - apply HandleWebSocket_indexed.
  - apply shrinks_indexed, unregisterClient_shrinks.
  - apply shrinks_indexed, broadcastMessage_shrinks.
  - apply shrinks_indexed, SendToUser_shrinks.
  - apply shrinks_indexed, SendToDevice_shrinks.
  - apply shrinks_indexed, handleMessage_shrinks.
  - apply shrinks_indexed, writePumpStep_shrinks.
Qed.

(** An invariant of every step holds along every run, whether the run
    returns or stops at a panic. *)
Lemma run_inv (P : State → Prop) ops s :
  P s → (∀ op s0, P s0 → P (state_of (exec op s0))) → P (state_of (run ops s)).
Proof.
  intros Hs Hstep. revert s Hs.
  induction ops as [|op ops IH]; intros s Hs; simpl; [done|].
  pose proof (Hstep op s Hs) as H1.
  destruct (exec op s) as [s1|why s1]; simpl in *; auto.
Qed.

Lemma NewManager_indexed : indexed NewManager.
Proof. split; simpl; intros *; by rewrite lookup_empty. Qed.

Lemma run_indexed ops s : indexed s → indexed (state_of (run ops s)).
Proof. intros Hs. apply run_inv; [done|]. intros. by apply exec_indexed. Qed.

Lemma run_heap_grows ops s : heap_grows s (state_of (run ops s)).
Proof.
  apply (run_inv (heap_grows s)); [apply heap_grows_refl|].
  intros op s0 H0. eapply heap_grows_trans; [exact H0|apply exec_heap_grows].
Qed.

(** ** What a dispatch loop does to the mailboxes *)

Lemma sendOrClose_open message p s c :
  heap s !! p = Some c → closed (Send c) = false →
  sendOrClose message p s = Ok (store p (attempt message c) s).
Proof.
  intros Hp Hopen. unfold sendOrClose, attempt. rewrite Hp.
  unfold trySend, closeChan. rewrite Hopen.
  by destruct (length (buf (Send c)) <? cap (Send c))%nat.
Qed.

Lemma forEach_guardedSend g message xs s :
  NoDup xs.*2 →
  (∀ p, p ∈ xs.*2 →
     ∃ c, heap s !! p = Some c ∧ (g c = true → closed (Send c) = false)) →
  ∃ s', forEach (guardedSend g message) xs s = Ok s' ∧
        clients s' = clients s ∧ userClients s' = userClients s ∧
        ∀ p, heap s' !! p =
             (λ c, if decide (p ∈ xs.*2)
                   then (if g c then attempt message c else c) else c)
               <$> heap s !! p.
Proof.
  revert s. induction xs as [|e xs IH]; intros s Hnd Hopen.
  - exists s. simpl. repeat split; try done.
    intros p. by destruct (heap s !! p).
  - rewrite fmap_cons in Hnd. apply NoDup_cons in Hnd as [Hnotin Hnd].
    destruct (Hopen e.2) as (c & Hc & Hg); [rewrite fmap_cons; left|].
    assert (Hstep : ∃ s1, guardedSend g message e s = Ok s1 ∧
              clients s1 = clients s ∧ userClients s1 = userClients s ∧
              heap s1 = <[e.2 := if g c then attempt message c else c]> (heap s)).
    { unfold guardedSend. rewrite Hc. destruct (g c) eqn:Hgc.
      - rewrite (sendOrClose_open _ _ _ c) by auto. eexists. by repeat split.
      - exists s. repeat split; try done. by rewrite insert_id. }
    destruct Hstep as (s1 & Hs1 & Hcl1 & Hu1 & Hh1).
    destruct (IH s1 Hnd) as (s' & Hs' & Hcl' & Hu' & Hh').
    { intros p Hp. destruct (Hopen p) as (d & Hd & Hgd);
        [rewrite fmap_cons; by right|].
      exists d. split; [|done]. rewrite Hh1, lookup_insert_ne; [done|].
      intros <-. done. }
    exists s'. split; [cbn [forEach]; rewrite Hs1; exact Hs'|].
    split; [congruence|]. split; [congruence|].
    intros p. rewrite Hh', Hh1. rewrite fmap_cons.
    destruct (decide (e.2 = p)) as [<-|Hne].
    + rewrite lookup_insert_eq, Hc. cbn [fmap option_fmap option_map].
      rewrite decide_False by done. rewrite decide_True by left.
      done.
    + rewrite lookup_insert_ne by done.
      destruct (heap s !! p) as [d|]; cbn [fmap option_fmap option_map]; [|done].
      destruct (decide (p ∈ xs.*2)) as [Hin|Hnin].
      * rewrite decide_True by (by right). done.
      * rewrite decide_False; [done|].
        intros [?|?]%elem_of_cons; congruence.
Qed.

(** The pointers of an index appear once each in the loop over it. *)
Lemma NoDup_ptrs (m : gmap string nat) (h : gmap nat Client) :
  (∀ i p, m !! i = Some p → ∃ c, h !! p = Some c ∧ ID c = i) →
  NoDup (map_to_list m).*2.
Proof.
  intros Hm. apply NoDup_fmap_2_strong; [|apply NoDup_map_to_list].
  intros [i p] [j q] Hi Hj Heq. simpl in Heq. subst q.
  apply elem_of_map_to_list in Hi, Hj.
  destruct (Hm _ _ Hi) as (c & Hc & <-). destruct (Hm _ _ Hj) as (d & Hd & <-).
  congruence.
Qed.

Lemma elem_of_ptrs (m : gmap string nat) p :
  p ∈ (map_to_list m).*2 ↔ ∃ i, m !! i = Some p.
Proof.
  rewrite list_elem_of_fmap. split.
  - intros ([i q] & -> & Hin). apply elem_of_map_to_list in Hin. eauto.
  - intros [i Hi]. exists (i, p). split; [done|]. by apply elem_of_map_to_list.
Qed.

Lemma State_eq s s' :
  heap s' = heap s → clients s' = clients s → userClients s' = userClients s →
  s' = s.
Proof. destruct s, s'; simpl; intros; by subst. Qed.

Lemma open_or_skipped_spec g s (m : gmap string nat) :
  (∀ i p, m !! i = Some p → ∃ c, heap s !! p = Some c ∧ ID c = i) →
  forallb (open_or_skipped g s) (map_to_list m) = true →
  ∀ p, p ∈ (map_to_list m).*2 →
    ∃ c, heap s !! p = Some c ∧ (g c = true → closed (Send c) = false).
Proof.
  intros Hidx Hall p Hp. apply elem_of_ptrs in Hp as [i Hi].
  destruct (Hidx _ _ Hi) as (c & Hc & _). exists c. split; [done|].
  intros Hg. rewrite forallb_forall in Hall.
  specialize (Hall (i, p)). unfold open_or_skipped in Hall. simpl in Hall.
  rewrite Hc, Hg in Hall. simpl in Hall. apply negb_true_iff, Hall.
  apply list_elem_of_In. by apply elem_of_map_to_list.
Qed.

Lemma registered_ptrs s p c :
  indexed s → heap s !! p = Some c →
  p ∈ (map_to_list (clients s)).*2 ↔ registered s p c = true.
Proof.
  intros [Hc _] Hp. unfold registered. rewrite bool_decide_eq_true, elem_of_ptrs.
  split; [|eauto]. intros [i Hi]. destruct (Hc _ _ Hi) as (d & Hd & <-).
  congruence.
Qed.

Lemma registered_under_ptrs s userID uc p c :
  indexed s → heap s !! p = Some c → userClients s !! userID = Some uc →
  p ∈ (map_to_list uc).*2 ↔ registered_under userID s p c = true.
Proof.
  intros [_ Hu] Hp Huc. unfold registered_under.
  rewrite Huc, bool_decide_eq_true, elem_of_ptrs.
  split; [|eauto]. intros [i Hi]. destruct (Hu _ _ _ _ Huc Hi) as (d & Hd & <- & _).
  congruence.
Qed.

Lemma SendToDevice_indexed s deviceID message :
  indexed s → subscribers_open deviceID s = true →
  ∃ s', SendToDevice deviceID message s = Ok s' ∧
    clients s' = clients s ∧ userClients s' = userClients s ∧
    ∀ p, heap s' !! p =
         (λ c, if registered s p c && subscribed deviceID c
               then attempt message c else c) <$> heap s !! p.
Proof.
  intros Hs Hopen.
  destruct (forEach_guardedSend (subscribed deviceID) message
              (map_to_list (clients s)) s) as (s' & Hrun & Hc & Hu & Hh).
  { eapply NoDup_ptrs, Hs. }
  { apply open_or_skipped_spec; [apply Hs|done]. }
  exists s'. split; [exact Hrun|]. split; [done|]. split; [done|].
  intros p. rewrite Hh. destruct (heap s !! p) as [c|] eqn:Hp; [|done].
  cbn [fmap option_fmap option_map]. f_equal.
  destruct (decide (p ∈ (map_to_list (clients s)).*2)) as [Hin|Hnin].
  - apply (registered_ptrs s p c) in Hin; [|done..]. by rewrite Hin.
  - destruct (registered s p c) eqn:Hr; [|done].
    apply (registered_ptrs s p c) in Hr; done.
Qed.

Lemma SendToUser_indexed s userID message :
  indexed s → sessions_open userID s = true →
  ∃ s', SendToUser userID message s = Ok s' ∧
    clients s' = clients s ∧ userClients s' = userClients s ∧
    ∀ p, heap s' !! p =
         (λ c, if registered_under userID s p c
               then attempt message c else c) <$> heap s !! p.
Proof.
  intros Hs Hopen. unfold SendToUser, sessions_open in *.
  destruct (userClients s !! userID) as [uc|] eqn:Huc.
  - destruct (forEach_guardedSend (λ _, true) message (map_to_list uc) s)
      as (s' & Hrun & Hc & Hu & Hh).
    { eapply (NoDup_ptrs uc (heap s)). intros i p Hi.
      destruct (proj2 Hs _ _ _ _ Huc Hi) as (c & ? & ? & _). eauto. }
    { apply open_or_skipped_spec; [|done]. intros i p Hi.
      destruct (proj2 Hs _ _ _ _ Huc Hi) as (c & ? & ? & _). eauto. }
    exists s'. split.
    { rewrite <- Hrun. apply forEach_ext. intros e s0. unfold guardedSend.
      unfold sendOrClose. by destruct (heap s0 !! e.2). }
    split; [done|]. split; [done|].
    intros p. rewrite Hh. destruct (heap s !! p) as [c|] eqn:Hp; [|done].
    cbn [fmap option_fmap option_map]. f_equal.
    destruct (decide (p ∈ (map_to_list uc).*2)) as [Hin|Hnin].
    + apply (registered_under_ptrs s userID uc p c) in Hin; [|done..].
      by rewrite Hin.
    + destruct (registered_under userID s p c) eqn:Hr; [|done].
      apply (registered_under_ptrs s userID uc p c) in Hr; done.
  - exists s. repeat split; try done. intros p.
    unfold registered_under. rewrite Huc. by destruct (heap s !! p).
Qed.

(** ** Dispatch by topic and by user *)

(** C7. [SendToDevice] on a state the manager can reach, in which no
    registered subscriber of the device has a closed mailbox channel,
    returns; it leaves both indices alone, performs the send-or-close
    attempt on exactly the clients that are in the primary map and have
    the device in their subscription set, and leaves every other client as
    it was; with no such client the state is unchanged. *)
Theorem SendToDevice_exact ops s deviceID message :
  state_of (run ops NewManager) = s →
  subscribers_open deviceID s = true →
  ∃ s', SendToDevice deviceID message s = Ok s' ∧
    clients s' = clients s ∧ userClients s' = userClients s ∧
    (∀ p, heap s' !! p =
          (λ c, if registered s p c && subscribed deviceID c
                then attempt message c else c) <$> heap s !! p) ∧
    ((∀ p c, heap s !! p = Some c →
             registered s p c && subscribed deviceID c = false) → s' = s).
Proof.
  intros Hrun Hopen.
  assert (Hs : indexed s) by (subst s; apply run_indexed, NewManager_indexed).
  destruct (SendToDevice_indexed s deviceID message Hs Hopen)
    as (s' & Hok & Hc & Hu & Hh).
  exists s'. repeat split; try done.
  intros Hnone. apply State_eq; try done. apply map_eq. intros p.
  rewrite Hh. destruct (heap s !! p) as [c|] eqn:Hp; [|done].
  cbn [fmap option_fmap option_map]. by rewrite (Hnone p c Hp).
Qed.

Lemma SendToDevice_exact_witness :
  state_of (run demo_ops NewManager) = demo_state ∧
  subscribers_open "dev-1" demo_state = true ∧
  ∃ s', SendToDevice "dev-1" telemetry demo_state = Ok s' ∧
        clients s' = clients demo_state.
Proof.
  split; [vm_compute; reflexivity|]. split; [vm_compute; reflexivity|].
  destruct (SendToDevice_exact demo_ops demo_state "dev-1" telemetry)
    as (s' & Hok & Hc & _); [vm_compute; reflexivity..|].
  exists s'. split; [exact Hok|exact Hc].
Defined.

(** C8. [SendToUser] on a state the manager can reach, in which no
    session filed under the user has a closed mailbox channel, returns; it
    leaves both indices alone, performs the send-or-close attempt on
    exactly the clients filed under that user in the user index, and
    leaves every other client as it was; when the index has no entry for
    the user the state is unchanged and nothing is signalled. *)
Theorem SendToUser_exact ops s userID message :
  state_of (run ops NewManager) = s →
  sessions_open userID s = true →
  ∃ s', SendToUser userID message s = Ok s' ∧
    clients s' = clients s ∧ userClients s' = userClients s ∧
    (∀ p, heap s' !! p =
          (λ c, if registered_under userID s p c
                then attempt message c else c) <$> heap s !! p) ∧
    (userClients s !! userID = None → s' = s).
Proof.
  intros Hrun Hopen.
  assert (Hs : indexed s) by (subst s; apply run_indexed, NewManager_indexed).
  destruct (SendToUser_indexed s userID message Hs Hopen)
    as (s' & Hok & Hc & Hu & Hh).
  exists s'. repeat split; try done.
  intros Hnone. unfold SendToUser in Hok. rewrite Hnone in Hok. congruence.
Qed.

Lemma SendToUser_exact_witness :
  state_of (run demo_ops NewManager) = demo_state ∧
  sessions_open 7 demo_state = true ∧
  ∃ s', SendToUser 7 notice demo_state = Ok s' ∧
        clients s' = clients demo_state.
Proof.
  split; [vm_compute; reflexivity|]. split; [vm_compute; reflexivity|].
  destruct (SendToUser_exact demo_ops demo_state 7%N notice)
    as (s' & Hok & Hc & _); [vm_compute; reflexivity..|].
  exists s'. split; [exact Hok|exact Hc].
Defined.

(** ** Clients a dispatch loop does not touch *)

Lemma sendOrClose_other message q s p :
  q ≠ p → heap (state_of (sendOrClose message q s)) !! p = heap s !! p.
Proof.
  intros Hne. unfold sendOrClose.
  repeat case_match; simpl; try done; by rewrite lookup_insert_ne.
Qed.

Lemma SendToDevice_skips deviceID message s p c :
  heap s !! p = Some c → subscribed deviceID c = false →
  heap (state_of (SendToDevice deviceID message s)) !! p = Some c.
Proof.
  intros Hp Hsub. unfold SendToDevice.
  apply (forEach_inv (λ s0, heap s0 !! p = Some c)); [done|].
  intros e s0 _ H0. unfold deviceBody.
  destruct (decide (e.2 = p)) as [->|Hne].
  - by rewrite H0, Hsub.
  - destruct (heap s0 !! e.2); [|done].
    destruct (subscribed deviceID c0); [|done].
    by rewrite sendOrClose_other.
Qed.

(** C5. On a state the manager can reach, [SendToUser] for a user id
    other than 0 (the id that stands for "no identity") leaves every
    anonymous client exactly as it was, mailbox included, whether the call
    returns or panics. *)
Theorem SendToUser_skips_anonymous ops s userID message p c :
  state_of (run ops NewManager) = s →
  userID ≠ anonymous →
  heap s !! p = Some c → UserID c = anonymous →
  heap (state_of (SendToUser userID message s)) !! p = Some c.
Proof.
  intros Hrun Hid Hp Hanon.
  assert (Hs : indexed s) by (subst s; apply run_indexed, NewManager_indexed).
  unfold SendToUser. destruct (userClients s !! userID) as [uc|] eqn:Huc; [|done].
  apply (forEach_inv (λ s0, heap s0 !! p = Some c)); [done|].
  intros [i q] s0 Hin H0. simpl. rewrite sendOrClose_other; [done|].
  intros ->. apply elem_of_map_to_list in Hin.
  destruct (proj2 Hs _ _ _ _ Huc Hin) as (d & Hd & _ & Hu). congruence.
Qed.

Lemma SendToUser_skips_anonymous_witness :
  heap (state_of (SendToUser 7 notice demo_state)) !! 2
  = heap demo_state !! 2.
Proof.
  rewrite (SendToUser_skips_anonymous demo_ops demo_state 7%N notice 2
             (default (mkClient "" 0 ConnOpen (makeChan 0) ∅)
                      (heap demo_state !! 2))).
  - vm_compute; reflexivity.
  - vm_compute; reflexivity.
  - vm_compute; discriminate.
  - vm_compute; reflexivity.
  - vm_compute; reflexivity.
Defined.

(** User id 0 has a bucket of its own in the user index: a send addressed
    to 0 reaches the anonymous sessions. *)
Lemma SendToUser_zero_reaches_anonymous :
  (λ c, buf (Send c)) <$>
    heap (state_of (SendToUser anonymous notice demo_state)) !! 2
  = Some [welcomeMsg (demo_clock 3 9); notice].
Proof. vm_compute. reflexivity. Qed.

(** ** Subscriptions *)

Section Quiet.
Variables (p : nat) (T : string).

Lemma quiet_insert h q c c' :
  h !! q = Some c →
  (q = p → subscribed T c = false → subscribed T c' = false) →
  quiet_on p T h → quiet_on p T (<[q := c']> h).
Proof.
  intros Hq Hsub (d & Hd & Hquiet). destruct (decide (q = p)) as [->|Hne].
  - exists c'. rewrite lookup_insert_eq. split; [done|].
    apply Hsub; [done|congruence].
  - exists d. by rewrite lookup_insert_ne.
Qed.

Ltac quiet_cases :=
  repeat match goal with
  | |- context [match ?x with _ => _ end] => destruct x eqn:?; simpl
  end;
  try done; try (eapply quiet_insert; eauto; done).

Lemma sendOrClose_quiet message q s :
  quiet_on p T (heap s) → quiet_on p T (heap (state_of (sendOrClose message q s))).
Proof. intros H. unfold sendOrClose. quiet_cases. Qed.

Lemma sendOrDrop_quiet response q s :
  quiet_on p T (heap s) → quiet_on p T (heap (state_of (sendOrDrop response q s))).
Proof. intros H. unfold sendOrDrop. quiet_cases. Qed.

Lemma broadcastBody_quiet message e s :
  quiet_on p T (heap s) →
  quiet_on p T (heap (state_of (broadcastBody message e s))).
Proof. intros H. unfold broadcastBody. quiet_cases. Qed.

Lemma writePumpStep_quiet writeOk q s :
  quiet_on p T (heap s) →
  quiet_on p T (heap (state_of (writePumpStep writeOk q s))).
Proof. intros H. unfold writePumpStep. quiet_cases. Qed.

Lemma unregisterClient_quiet q s :
  quiet_on p T (heap s) → quiet_on p T (heap (state_of (unregisterClient q s))).
Proof. intros H. unfold unregisterClient. quiet_cases. Qed.

Lemma registerClient_quiet now q s :
  quiet_on p T (heap s) → quiet_on p T (heap (state_of (registerClient now q s))).
Proof. intros H. unfold registerClient. quiet_cases. Qed.

Lemma HandleWebSocket_quiet user_id now s :
  quiet_on p T (heap s) →
  quiet_on p T (heap (state_of (HandleWebSocket user_id now s))).
Proof.
  intros H. unfold HandleWebSocket. destruct (generateClientID now); [|done].
  apply registerClient_quiet. simpl. destruct H as (c & Hc & Hq).
  exists c. split; [|done]. rewrite lookup_insert_ne; [done|].
  intros Heq. rewrite <- Heq, fresh_ptr_None in Hc. done.
Qed.

Lemma handleUnsubscribe_quiet q msg s :
  quiet_on p T (heap s) →
  quiet_on p T (heap (state_of (handleUnsubscribe q msg s))).
Proof.
  intros H. unfold handleUnsubscribe. quiet_cases.
  eapply quiet_insert; eauto. intros _. unfold subscribed. simpl.
  destruct (decide (s0 = T)) as [->|Hne].
  - by rewrite lookup_delete_eq.
  - by rewrite lookup_delete_ne.
Qed.

Lemma handleSubscribe_quiet now q msg s :
  (q = p → deviceIDOf msg ≠ Some T) →
  quiet_on p T (heap s) →
  quiet_on p T (heap (state_of (handleSubscribe now q msg s))).
Proof.
  intros Hother H. unfold handleSubscribe.
  destruct (deviceIDOf msg) as [d|]; [|done].
  destruct (heap s !! q) as [c|] eqn:Hq; [|done].
  apply sendOrDrop_quiet. simpl. eapply quiet_insert; eauto.
  intros -> Hsub. unfold subscribed. simpl.
  rewrite lookup_insert_ne; [done|]. intros ->. by apply Hother.
Qed.

Lemma exec_quiet op s :
  resubscribes p T op = false →
  quiet_on p T (heap s) → quiet_on p T (heap (state_of (exec op s))).
Proof.
  intros Hop H. destruct op; simpl.
  - by apply HandleWebSocket_quiet.
  - by apply unregisterClient_quiet.
  - apply (forEach_inv (λ s0, quiet_on p T (heap s0))); [done|].
    intros. by apply broadcastBody_quiet.
  - unfold SendToUser. destruct (userClients s !! userID); [|done].
    apply (forEach_inv (λ s0, quiet_on p T (heap s0))); [done|].
    intros. by apply sendOrClose_quiet.
  - apply (forEach_inv (λ s0, quiet_on p T (heap s0))); [done|].
    intros e s0 _ H0. unfold deviceBody. destruct (heap s0 !! e.2); [|done].
    destruct (subscribed deviceID c); [|done]. by apply sendOrClose_quiet.
  - unfold handleMessage. simpl in Hop.
    destruct (String.eqb (Type_ msg) TypeSubscribe) eqn:Hty.
    + apply handleSubscribe_quiet; [|done]. intros -> Hdev.
      rewrite Nat.eqb_refl in Hop. simpl in Hop.
      by rewrite bool_decide_eq_false in Hop.
    + destruct (String.eqb (Type_ msg) TypeUnsubscribe).
      * by apply handleUnsubscribe_quiet.
      * destruct (String.eqb (Type_ msg) TypeHeartbeat); [|done].
        by apply sendOrDrop_quiet.
  - by apply writePumpStep_quiet.
Qed.

Lemma run_quiet ops s :
  existsb (resubscribes p T) ops = false →
  quiet_on p T (heap s) → quiet_on p T (heap (state_of (run ops s))).
Proof.
  revert s. induction ops as [|op ops IH]; intros s Hops H; simpl; [done|].
  simpl in Hops. apply orb_false_iff in Hops as [Hop Hops].
  pose proof (exec_quiet op s Hop H) as H1.
  destruct (exec op s) as [s1|why s1]; simpl in *; auto.
Qed.
End Quiet.

(** C9. A subscribe frame for topic [T] followed by an unsubscribe frame
    for [T], both handled for a client with an open mailbox channel,
    return and leave the client unsubscribed from [T]: after any further
    operations that do not include a new subscribe frame of that client
    for [T], [SendToDevice T] leaves the client exactly as it was, so no
    message addressed to [T] enters its mailbox. *)
Theorem subscribe_unsubscribe_silences s p c now T msgS msgU :
  heap s !! p = Some c → closed (Send c) = false →
  Type_ msgS = TypeSubscribe → deviceIDOf msgS = Some T →
  Type_ msgU = TypeUnsubscribe → deviceIDOf msgU = Some T →
  ∃ s1 s2,
    handleMessage now p msgS s = Ok s1 ∧
    handleMessage now p msgU s1 = Ok s2 ∧
    ∀ ops message, existsb (resubscribes p T) ops = false →
      heap (state_of (SendToDevice T message (state_of (run ops s2)))) !! p
      = heap (state_of (run ops s2)) !! p.
Proof.
  intros Hp Hopen HtyS HdevS HtyU HdevU.
  unfold handleMessage. rewrite HtyS, HtyU. simpl.
  unfold handleSubscribe, handleUnsubscribe. rewrite HdevS, HdevU, Hp.
  set (c1 := setSubscriptions (<[T:=true]> (Subscriptions c)) c).
  assert (Hack : ∃ s1 c2, sendOrDrop (subscribedMsg now T) p (store p c1 s) = Ok s1
            ∧ heap s1 !! p = Some c2).
  { unfold sendOrDrop. simpl. rewrite lookup_insert_eq.
    unfold trySend. simpl. rewrite Hopen.
    destruct (length (buf (Send c)) <? cap (Send c))%nat; eexists _, _;
      (split; [reflexivity|]); simpl; by rewrite lookup_insert_eq. }
  destruct Hack as (s1 & c2 & Hs1 & Hc2).
  exists s1. eexists. split; [exact Hs1|]. rewrite Hc2. split; [reflexivity|].
  intros ops message Hops.
  set (s2 := store p _ s1).
  assert (Hq : quiet_on p T (heap (state_of (run ops s2)))).
  { apply run_quiet; [done|]. eexists. subst s2. simpl.
    rewrite lookup_insert_eq. split; [reflexivity|].
    unfold subscribed. simpl. by rewrite lookup_delete_eq. }
  destruct Hq as (c3 & Hc3 & Hquiet). rewrite Hc3.
  by apply SendToDevice_skips.
Qed.

Lemma subscribe_unsubscribe_silences_witness :
  ∃ s2, run [OpInbound (demo_clock 5 0) 1 (subscribeFrame "dev-1");
             OpInbound (demo_clock 5 0) 1 (unsubscribeFrame "dev-1")]
            demo_state = Ok s2 ∧
        heap (state_of (SendToDevice "dev-1" telemetry s2)) !! 1 = heap s2 !! 1.
Proof.
  destruct (subscribe_unsubscribe_silences demo_state 1
              (default (mkClient "" 0 ConnOpen (makeChan 0) ∅)
                       (heap demo_state !! 1))
              (demo_clock 5 0) "dev-1"
              (subscribeFrame "dev-1") (unsubscribeFrame "dev-1"))
    as (s1 & s2 & H1 & H2 & Hsilent); [vm_compute; reflexivity..|].
  exists s2. split.
  - cbn [run exec andThen]. rewrite H1. cbn [andThen]. rewrite H2. reflexivity.
  - apply (Hsilent [] telemetry). reflexivity.
Defined.

(** C10. [registerClient] on a client whose mailbox channel is open
    returns with the client in the primary map and in the user index under
    its user id, and has made one non-blocking send of the notification
    whose payload is the map "message" -> "Connected successfully": with
    room in the mailbox the message is appended (so it is the only, first
    item of an empty mailbox); with a full mailbox the channel is closed,
    the content is unchanged, and the client stays in both maps. *)
Theorem registerClient_welcome now p s c :
  heap s !! p = Some c → closed (Send c) = false →
  Type_ (welcomeMsg now) = TypeNotification ∧
  Data (welcomeMsg now) = VStringMap [("message", "Connected successfully")] ∧
  ∃ s' c', registerClient now p s = Ok s' ∧
    heap s' !! p = Some c' ∧
    clients s' !! ID c = Some p ∧
    (∃ uc, userClients s' !! UserID c = Some uc ∧ uc !! ID c = Some p) ∧
    Send c' = (if full (Send c)
               then {| buf := buf (Send c); cap := cap (Send c); closed := true |}
               else {| buf := buf (Send c) ++ [welcomeMsg now];
                       cap := cap (Send c); closed := false |}).
Proof.
  intros Hp Hopen. split; [done|]. split; [done|].
  unfold registerClient, trySend, closeChan, full. rewrite Hp, Hopen.
  destruct (length (buf (Send c)) <? cap (Send c))%nat; simpl;
    eexists _, _; (split; [reflexivity|]); simpl;
    rewrite !lookup_insert_eq; (split; [reflexivity|]); (split; [done|]);
    (split; [|done]); eexists; split; try done; by rewrite lookup_insert_eq.
Qed.

Lemma registerClient_welcome_witness :
  ∃ s' c', registerClient (demo_clock 9 0) 0
             (store 0 (mkClient "a" 7 ConnOpen (makeChan 256) ∅) NewManager)
           = Ok s' ∧
    heap s' !! 0 = Some c' ∧ buf (Send c') = [welcomeMsg (demo_clock 9 0)].
Proof.
  destruct (registerClient_welcome (demo_clock 9 0) 0
              (store 0 (mkClient "a" 7 ConnOpen (makeChan 256) ∅) NewManager)
              (mkClient "a" 7 ConnOpen (makeChan 256) ∅))
    as (_ & _ & s' & c' & Hok & Hc' & _ & _ & Hsend);
    [vm_compute; reflexivity..|].
  exists s', c'. split; [exact Hok|]. split; [exact Hc'|].
  rewrite Hsend. reflexivity.
Defined.

(** The client built by [HandleWebSocket] starts with an empty mailbox of
    capacity 256, so the welcome message is its first item. *)
Lemma HandleWebSocket_welcome user_id now s id :
  generateClientID now = Some id →
  ∃ s', HandleWebSocket user_id now s = Ok s' ∧
    heap s' !! fresh (dom (heap s))
    = Some {| ID := id; UserID := getUserIDFromContext user_id;
              Conn := ConnOpen;
              Send := {| buf := [welcomeMsg (now 9)]; cap := 256;
                         closed := false |};
              Subscriptions := ∅ |}.
Proof.
  intros Hid. unfold HandleWebSocket. rewrite Hid.
  unfold registerClient. simpl. rewrite lookup_insert_eq. simpl.
  eexists. split; [reflexivity|]. simpl. by rewrite lookup_insert_eq.
Qed.

(** ** A slow consumer *)

(** C1, on the code. The mailbox of session 0 is full and open. A
    broadcast then closes the channel and deletes the session from the
    primary map but leaves its entry in the user index; [SendToUser] and
    [SendToDevice] close the channel and leave the session in the primary
    map and in the user index, still subscribed. *)
Theorem overflow_leaves_index_entries :
  run saturating_ops NewManager = Ok saturated ∧
  mailbox saturated 0 = Some (256, false) ∧
  in_clients saturated session0_id = Some 0 ∧
  (∃ s1, broadcastMessage notice saturated = Ok s1 ∧
         mailbox s1 0 = Some (256, true) ∧
         in_clients s1 session0_id = None ∧
         in_userClients s1 7 session0_id = Some 0) ∧
  (∃ s2, SendToUser 7 notice saturated = Ok s2 ∧
         mailbox s2 0 = Some (256, true) ∧
         in_clients s2 session0_id = Some 0 ∧
         in_userClients s2 7 session0_id = Some 0) ∧
  (∃ s3, SendToDevice "dev-1" telemetry saturated = Ok s3 ∧
         mailbox s3 0 = Some (256, true) ∧
         in_clients s3 session0_id = Some 0 ∧
         in_userClients s3 7 session0_id = Some 0 ∧
         subscribed "dev-1" <$> heap s3 !! 0 = Some true).
Proof.
  split; [vm_compute; reflexivity|]. split; [vm_compute; reflexivity|].
  split; [vm_compute; reflexivity|].
  split; [|split]; eexists; (split; [vm_compute; reflexivity|]);
    vm_compute; repeat split.
Qed.

(** C2, on the code. After [SendToUser] has closed the full mailbox of
    session 0, the session is still in the primary map; when its reader
    then fails and unregisters it, [unregisterClient] closes the channel a
    second time, which panics. A later [SendToUser] instead panics on the
    send to the closed channel. *)
Theorem overflow_then_unregister_closes_twice :
  ∃ s2, SendToUser 7 notice saturated = Ok s2 ∧
    (∃ s3, readPump [(demo_clock 40 0, ReadErr UnexpectedClose)] 0 s2
           = Panic CloseOfClosedChannel s3) ∧
    (∃ s3, unregisterClient 0 s2 = Panic CloseOfClosedChannel s3) ∧
    (∃ s3, SendToUser 7 notice s2 = Panic SendOnClosedChannel s3).
Proof.
  eexists. split; [vm_compute; reflexivity|].
  repeat split; eexists; vm_compute; reflexivity.
Qed.

(** What does hold: a second [unregisterClient] of a client that the first
    one removed changes nothing. *)
Lemma unregisterClient_twice p s s1 :
  unregisterClient p s = Ok s1 → unregisterClient p s1 = Ok s1.
Proof.
  unfold unregisterClient at 1.
  destruct (heap s !! p) as [c|] eqn:Hp; [|done].
  destruct (clients s !! ID c) as [q|] eqn:Hq.
  - destruct (closeChan (Send c)) as [ch|]; [|done].
    intros [= <-]. unfold unregisterClient. simpl.
    rewrite lookup_insert_eq. simpl. by rewrite lookup_delete_eq.
  - intros [= <-]. unfold unregisterClient. by rewrite Hp, Hq.
Qed.

(** ** Consistency of the primary map and the user index *)

Lemma in_userClients_Some s u i p :
  in_userClients s u i = Some p ↔
  ∃ uc, userClients s !! u = Some uc ∧ uc !! i = Some p.
Proof.
  unfold in_userClients. destruct (userClients s !! u) as [uc|]; simpl.
  - split; [eauto|]. by intros (? & [= <-] & ?).
  - split; [done|]. by intros (? & ? & ?).
Qed.

Lemma NoDup_ids_inj s : NoDup (ids s) → ids_inj s.
Proof.
  intros Hnd p q c d Hp Hq Hid.
  apply elem_of_map_to_list, list_elem_of_lookup in Hp as [i Hi].
  apply elem_of_map_to_list, list_elem_of_lookup in Hq as [j Hj].
  assert (i = j) as ->.
  { eapply NoDup_lookup; [exact Hnd|..]; unfold ids; rewrite list_lookup_fmap.
    - rewrite Hi. reflexivity.
    - rewrite Hj. simpl. by rewrite Hid. }
  congruence.
Qed.

Lemma ids_inj_mono s s' : heap_grows s s' → ids_inj s' → ids_inj s.
Proof.
  intros Hg Hinj p q c d Hp Hq Hid.
  destruct (Hg _ _ Hp) as (c' & Hp' & Hc & _).
  destruct (Hg _ _ Hq) as (d' & Hq' & Hd & _).
  eapply Hinj; eauto. congruence.
Qed.

Lemma only_heap_refl s : only_heap s s.
Proof. split; [apply heap_grows_refl|done]. Qed.

Lemma only_heap_trans s1 s2 s3 :
  only_heap s1 s2 → only_heap s2 s3 → only_heap s1 s3.
Proof.
  intros (Hg1 & Hc1 & Hu1) (Hg2 & Hc2 & Hu2).
  split; [eauto using heap_grows_trans|]. split; congruence.
Qed.

Lemma only_heap_store s p c c' :
  heap s !! p = Some c → ID c' = ID c → UserID c' = UserID c →
  only_heap s (store p c' s).
Proof. intros. split; [eauto using heap_grows_store|done]. Qed.

Lemma only_heap_consistent s s' : only_heap s s' → consistent s → consistent s'.
Proof.
  intros (Hg & Hc & Hu) (Hidx & Hpi & Hip).
  assert (Hin : ∀ u i, in_userClients s' u i = in_userClients s u i)
    by (intros; unfold in_userClients; by rewrite Hu).
  split; [|split].
  - eapply indexed_shrink; eauto; rewrite ?Hc, ?Hu; eauto.
  - intros i p Hp. rewrite Hc in Hp. destruct (Hpi _ _ Hp) as (c & Hh & Hi).
    destruct (Hg _ _ Hh) as (c' & Hh' & _ & Huid). exists c'.
    split; [done|]. by rewrite Hin, Huid.
  - intros u i p. rewrite Hin, Hc. apply Hip.
Qed.

Create HintDb only_heap.
#[local] Hint Resolve only_heap_refl only_heap_store : only_heap.

Ltac only_heap_cases :=
  repeat match goal with
  | |- context [match ?x with _ => _ end] => destruct x eqn:?; simpl
  end; eauto with only_heap.

Lemma sendOrClose_only_heap message p s :
  only_heap s (state_of (sendOrClose message p s)).
Proof. unfold sendOrClose. only_heap_cases. Qed.

Lemma sendOrDrop_only_heap response p s :
  only_heap s (state_of (sendOrDrop response p s)).
Proof. unfold sendOrDrop. only_heap_cases. Qed.

Lemma writePumpStep_only_heap writeOk p s :
  only_heap s (state_of (writePumpStep writeOk p s)).
Proof. unfold writePumpStep. only_heap_cases. Qed.

Lemma forEach_only_heap {A} (body : A → State → Result) xs s :
  (∀ x s0, only_heap s0 (state_of (body x s0))) →
  only_heap s (state_of (forEach body xs s)).
Proof.
  intros Hbody. apply (forEach_inv (only_heap s)); [apply only_heap_refl|].
  intros x s0 _ Hs0. eapply only_heap_trans; eauto.
Qed.

Lemma SendToUser_only_heap userID message s :
  only_heap s (state_of (SendToUser userID message s)).
Proof.
  unfold SendToUser. destruct (userClients s !! userID); simpl.
  - apply forEach_only_heap. intros. apply sendOrClose_only_heap.
  - apply only_heap_refl.
Qed.

Lemma SendToDevice_only_heap deviceID message s :
  only_heap s (state_of (SendToDevice deviceID message s)).
Proof.
  apply forEach_only_heap. intros e s0. unfold deviceBody.
  destruct (heap s0 !! e.2); simpl; [|apply only_heap_refl].
  destruct (subscribed deviceID c);
    [apply sendOrClose_only_heap|apply only_heap_refl].
Qed.

Lemma handleMessage_only_heap now p msg s :
  only_heap s (state_of (handleMessage now p msg s)).
Proof.
  unfold handleMessage, handleHeartbeat, handleSubscribe, handleUnsubscribe.
  repeat case_match; simpl;
    try (eapply only_heap_trans; [|apply sendOrDrop_only_heap]);
    auto using sendOrDrop_only_heap with only_heap.
  all: eauto with only_heap.
Qed.

Lemma broadcastMessage_userClients message s :
  userClients (state_of (broadcastMessage message s)) = userClients s.
Proof.
  apply (forEach_inv (λ s0, userClients s0 = userClients s)); [done|].
  intros e s0 _ H0. unfold broadcastBody. by repeat case_match.
Qed.

Lemma consistent_store s p c c' :
  consistent s → heap s !! p = Some c → ID c' = ID c → UserID c' = UserID c →
  consistent (store p c' s).
Proof. intros. eapply only_heap_consistent; eauto using only_heap_store. Qed.

Lemma unregisterClient_consistent p s :
  consistent s → ids_inj s → consistent (state_of (unregisterClient p s)).
Proof.
  intros Hs Hinj.
  assert (Hidx' : indexed (state_of (unregisterClient p s)))
    by (eapply shrinks_indexed; [apply unregisterClient_shrinks|apply Hs]).
  revert Hidx'. unfold unregisterClient.
  destruct (heap s !! p) as [c|] eqn:Hp; [|done].
  destruct (clients s !! ID c) as [q|] eqn:Hq; [|done].
  destruct Hs as ((Hic & Hiu) & Hpi & Hip).
  assert (q = p) as ->.
  { destruct (Hic _ _ Hq) as (d & Hd & Hid). eapply Hinj; eauto. }
  destruct (Hpi _ _ Hq) as (c0 & Hc0 & Hin).
  assert (c0 = c) as -> by congruence.
  apply in_userClients_Some in Hin as (uc & Huc & Hucp). rewrite Huc.
  set (users := if decide (size (delete (ID c) uc) = 0)
                then delete (UserID c) (userClients s)
                else <[UserID c := delete (ID c) uc]> (userClients s)).
  set (s1 := {| heap := heap s; clients := delete (ID c) (clients s);
                userClients := users |}).
  assert (Hlook : ∀ u i r, in_userClients s1 u i = Some r ↔
            in_userClients s u i = Some r ∧ i ≠ ID c).
  { intros u i r. rewrite !in_userClients_Some. simpl. subst users. split.
    - intros (uc' & H1 & H2).
      assert (Hold : ∃ uc0, userClients s !! u = Some uc0 ∧ uc0 !! i = Some r
                ∧ (u = UserID c → i ≠ ID c)).
      { destruct (decide (size (delete (ID c) uc) = 0)).
        - apply lookup_delete_Some in H1 as [Hne H1].
          exists uc'. repeat split; try done; congruence.
        - apply lookup_insert_Some in H1 as [[<- <-]|[Hne H1]].
          + apply lookup_delete_Some in H2 as [Hne H2].
            exists uc. repeat split; try done; congruence.
          + exists uc'. repeat split; try done; congruence. }
      destruct Hold as (uc0 & H3 & H4 & Hne). split; [eauto|].
      intros ->. destruct (Hiu _ _ _ _ H3 H4) as (d & Hd & Hid & Hud).
      assert (r = p) as -> by (eapply Hinj; eauto).
      apply Hne; congruence.
    - intros [(uc0 & H1 & H2) Hne].
      destruct (decide (u = UserID c)) as [->|Hu].
      + assert (uc0 = uc) as -> by congruence.
        assert (delete (ID c) uc !! i = Some r) by by rewrite lookup_delete_ne.
        rewrite decide_False.
        * exists (delete (ID c) uc). by rewrite lookup_insert_eq.
        * intros Hz. apply map_size_empty_iff in Hz.
          rewrite Hz in H. by rewrite lookup_empty in H.
      + exists uc0. split; [|done].
        destruct (decide (size (delete (ID c) uc) = 0)).
        * by rewrite lookup_delete_ne.
        * by rewrite lookup_insert_ne. }
  assert (Hs1 : indexed s1 → consistent s1).
  { intros Hidx1. split; [done|]. split.
    - intros i r Hr. simpl in Hr. apply lookup_delete_Some in Hr as [Hne Hr].
      destruct (Hpi _ _ Hr) as (d & Hd & Hind). exists d. split; [done|].
      apply Hlook. split; [done|congruence].
    - intros u i r Hr. apply Hlook in Hr as [Hr Hne]. simpl.
      rewrite lookup_delete_ne by done. eauto. }
  destruct (closeChan (Send c)) as [ch|]; simpl; [|done].
  intros Hidx'. apply (consistent_store s1 p c); try done.
  apply Hs1. eapply indexed_shrink; [split; [exact Hic|exact Hiu]|..].
  - intros r d Hr. simpl. eauto.
  - simpl. intros i r Hr. apply lookup_delete_Some in Hr. tauto.
  - intros u uc' i r H1 H2. apply in_userClients_Some.
    eapply (proj1 (Hlook u i r)). apply in_userClients_Some. eauto.
Qed.

Lemma HandleWebSocket_consistent user_id now s :
  consistent s → ids_inj (state_of (HandleWebSocket user_id now s)) →
  consistent (state_of (HandleWebSocket user_id now s)).
Proof.
  intros Hs. unfold HandleWebSocket.
  destruct (generateClientID now) as [id|]; [|done].
  set (p0 := fresh (dom (heap s))).
  set (c0 := {| ID := id; UserID := getUserIDFromContext user_id;
                Conn := ConnOpen; Send := makeChan 256; Subscriptions := ∅ |}).
  intros Hinj.
  assert (Hfresh : heap s !! p0 = None) by apply fresh_ptr_None.
  assert (Hg : heap_grows (store p0 c0 s)
                 (state_of (registerClient (now 9) p0 (store p0 c0 s))))
    by apply registerClient_heap_grows.
  apply (ids_inj_mono _ _ Hg) in Hinj.
  assert (Hnew : ∀ q d, heap s !! q = Some d → ID d ≠ id).
  { intros q d Hq Hid. assert (q = p0) as ->; [|congruence].
    eapply (Hinj q p0 d c0); simpl.
    - rewrite lookup_insert_ne; [done|]. intros <-. congruence.
    - by rewrite lookup_insert_eq.
    - done. }
  assert (Hs0 : consistent (store p0 c0 s)).
  { eapply only_heap_consistent; [|exact Hs].
    split; [apply alloc_heap_grows|done]. }
  assert (Hp0 : heap (store p0 c0 s) !! p0 = Some c0)
    by (simpl; by rewrite lookup_insert_eq).
  assert (Hreg : consistent (registered_maps p0 c0 (store p0 c0 s))).
  { destruct Hs as ((Hic & Hiu) & Hpi & Hip).
    destruct Hs0 as (Hidx0 & Hpi0 & Hip0).
    split; [by apply registered_maps_indexed|]. split.
    - intros i r Hr. simpl in Hr.
      apply lookup_insert_Some in Hr as [[<- <-]|[Hne Hr]].
      + exists c0. split; [done|]. apply in_userClients_Some. simpl.
        eexists. rewrite lookup_insert_eq. split; [done|].
        by rewrite lookup_insert_eq.
      + destruct (Hpi0 _ _ Hr) as (d & Hd & Hind). exists d. split; [done|].
        apply in_userClients_Some in Hind as (uc & H1 & H2). simpl in H1.
        apply in_userClients_Some. cbn [userClients registered_maps store].
        destruct (decide (UserID c0 = UserID d)) as [Heq|Hu].
        * rewrite Heq, lookup_insert_eq. eexists. split; [done|].
          rewrite lookup_insert_ne by done. by rewrite H1.
        * rewrite lookup_insert_ne by done. eauto.
    - intros u i r Hr. apply in_userClients_Some in Hr as (uc & H1 & H2).
      cbn [userClients clients registered_maps store] in *.
      apply lookup_insert_Some in H1 as [[<- <-]|[Hne H1]].
      + apply lookup_insert_Some in H2 as [[<- <-]|[Hne H2]].
        * by rewrite lookup_insert_eq.
        * rewrite lookup_insert_ne by done. apply (Hip (UserID c0)).
          apply in_userClients_Some.
          destruct (userClients s !! UserID c0) as [uc|]; simpl in H2; [eauto|].
          by rewrite lookup_empty in H2.
      + destruct (Hiu _ _ _ _ H1 H2) as (d & Hd & Hid & _).
        rewrite lookup_insert_ne by (intros <-; by eapply Hnew).
        apply (Hip u). apply in_userClients_Some. eauto. }
  pose proof (registerClient_cases (now 9) p0 (store p0 c0 s)) as Hcases.
  rewrite Hp0 in Hcases. destruct Hcases as [->|[ch ->]]; [done|].
  by apply (consistent_store _ p0 c0).
Qed.

Lemma exec_consistent op s :
  consistent s → ids_inj (state_of (exec op s)) →
  match op with
  | OpBroadcast _ => clients (state_of (exec op s)) = clients s
  | _ => True
  end →
  consistent (state_of (exec op s)).
Proof.
  intros Hs Hinj Hquiet. destruct op; simpl in *.
  - by apply HandleWebSocket_consistent.
  - apply unregisterClient_consistent; [done|].
    eapply ids_inj_mono; [apply unregisterClient_shrinks|done].
  - eapply only_heap_consistent; [|exact Hs].
    split; [apply broadcastMessage_shrinks|].
    split; [done|apply broadcastMessage_userClients].
  - eapply only_heap_consistent; [apply SendToUser_only_heap|done].
  - eapply only_heap_consistent; [apply SendToDevice_only_heap|done].
  - eapply only_heap_consistent; [apply handleMessage_only_heap|done].
  - eapply only_heap_consistent; [apply writePumpStep_only_heap|done].
Qed.

Lemma run_consistent ops s :
  consistent s → no_eviction ops s → ids_inj (state_of (run ops s)) →
  consistent (state_of (run ops s)).
Proof.
  revert s. induction ops as [|op ops IH]; intros s Hs Hquiet Hinj; [done|].
  destruct Hquiet as [Hop Hrest].
  assert (Hinj1 : ids_inj (state_of (exec op s))).
  { cbn [run] in Hinj. destruct (exec op s) as [s1|why s1]; simpl in *; [|done].
    eapply ids_inj_mono; [apply run_heap_grows|done]. }
  pose proof (exec_consistent op s Hs Hinj1 Hop) as H1.
  cbn [run] in *. destruct (exec op s) as [s1|why s1]; simpl in *; auto.
Qed.

Lemma NewManager_consistent : consistent NewManager.
Proof.
  split; [apply NewManager_indexed|]. split.
  - intros i p H. simpl in H. by rewrite lookup_empty in H.
  - intros u i p H. apply in_userClients_Some in H as (uc & H & _).
    simpl in H. by rewrite lookup_empty in H.
Qed.

(** C4, as stated, fails: an anonymous session is filed in the user
    index, under user id 0. *)
Lemma anonymous_session_is_indexed :
  ∃ s, run [OpConnect None (demo_clock 3)] NewManager = Ok s ∧
       ¬ spec_registry_consistent s.
Proof.
  eexists. split; [vm_compute; reflexivity|].
  intros Hspec.
  destruct (Hspec 0 _ eq_refl) as [Hidx _].
  destruct Hidx as [_ Hne]; [vm_compute; reflexivity|].
  apply Hne. reflexivity.
Qed.

(** C4, amended. Along any run of connects, unregistrations, inbound
    frames, writer steps and dispatches in which all session ids are
    distinct and no broadcast deletes a session, the two maps agree: every
    entry of the primary map has its entry in the user index under the
    client's user id (0 for an anonymous client), every entry of the user
    index has its primary entry, and [unregisterClient] takes a session
    out of both maps in the same step. *)
Theorem registry_consistent_run ops s :
  state_of (run ops NewManager) = s →
  NoDup (ids s) →
  no_eviction ops NewManager →
  (∀ i p, in_clients s i = Some p →
     ∃ c, heap s !! p = Some c ∧ ID c = i ∧
          in_userClients s (UserID c) i = Some p) ∧
  (∀ u i p, in_userClients s u i = Some p →
     ∃ c, heap s !! p = Some c ∧ ID c = i ∧ UserID c = u ∧
          in_clients s i = Some p) ∧
  (∀ p c, heap s !! p = Some c →
     in_clients (state_of (unregisterClient p s)) (ID c) = None ∧
     ∀ u, in_userClients (state_of (unregisterClient p s)) u (ID c) = None).
Proof.
  intros Hrun Hnd Hquiet. apply NoDup_ids_inj in Hnd.
  assert (Hs : consistent s).
  { subst s. apply run_consistent; auto using NewManager_consistent. }
  pose proof Hs as ((Hic & Hiu) & Hpi & Hip). split; [|split].
  - intros i p Hp. destruct (Hic _ _ Hp) as (c & Hc & Hid).
    destruct (Hpi _ _ Hp) as (c' & Hc' & Hin). exists c.
    repeat split; try done. congruence.
  - intros u i p Hin. pose proof (Hip _ _ _ Hin) as Hp.
    apply in_userClients_Some in Hin as (uc & H1 & H2).
    destruct (Hiu _ _ _ _ H1 H2) as (c & Hc & Hid & Hu). exists c.
    by repeat split.
  - intros p c Hp.
    pose proof (unregisterClient_consistent p s Hs Hnd) as (_ & _ & Hip').
    assert (Hgone : in_clients (state_of (unregisterClient p s)) (ID c) = None).
    { unfold in_clients, unregisterClient. rewrite Hp.
      destruct (clients s !! ID c) eqn:Hq; [|done].
      destruct (closeChan (Send c)); simpl; by rewrite lookup_delete_eq. }
    split; [done|]. intros u.
    destruct (in_userClients (state_of (unregisterClient p s)) u (ID c))
      as [r|] eqn:Hr; [|done].
    apply Hip' in Hr. unfold in_clients in Hgone. congruence.
Qed.

Lemma registry_consistent_run_witness :
  in_clients calm_state "20240517090303-LmXy9KlW" = Some 2 ∧
  in_userClients calm_state anonymous "20240517090303-LmXy9KlW" = Some 2 ∧
  in_clients calm_state "20240517090302-v6HiTu5G" = None.
Proof.
  destruct (registry_consistent_run calm_ops calm_state) as (Hpi & _ & _).
  - vm_compute; reflexivity.
  - apply (bool_decide_unpack _). vm_compute. exact I.
  - vm_compute. repeat split.
  - split; [vm_compute; reflexivity|]. split; [|vm_compute; reflexivity].
    destruct (Hpi "20240517090303-LmXy9KlW" 2) as (c & Hc & _ & Hin);
      [vm_compute; reflexivity|].
    assert (UserID c = anonymous) as <-; [|exact Hin].
    vm_compute in Hc. by injection Hc as <-.
Defined.

(** ** Session ids are a function of the clock *)

Lemma randomBytes_length now i n bs :
  randomBytes now i n = Some bs → length bs = n.
Proof.
  revert i bs. induction n as [|n IH]; intros i bs; simpl.
  - by intros [= <-].
  - destruct (charsetAt _); [|done].
    destruct (randomBytes now (S i) n) as [bs'|] eqn:Hbs; [|done].
    intros [= <-]. simpl. by rewrite (IH _ _ Hbs).
Qed.

Lemma randomBytes_lookup now i n bs k :
  randomBytes now i n = Some bs → (k < n)%nat →
  bs !! k = charsetAt (Z.rem (unixNano (now (i + k)%nat)) 62).
Proof.
  revert i bs k. induction n as [|n IH]; intros i bs k; [lia|].
  cbn [randomBytes]. change (Z.of_nat (String.length charset)) with 62%Z.
  destruct (charsetAt _) as [b|] eqn:Hb; [|done].
  destruct (randomBytes now (S i) n) as [bs'|] eqn:Hbs; [|done].
  intros [= <-] Hk. destruct k as [|k]; simpl.
  - by rewrite Nat.add_0_r, Hb.
  - rewrite (IH _ _ k Hbs) by lia.
    by replace (S i + k)%nat with (i + S k)%nat by lia.
Qed.

Lemma randomBytes_is_Some now i n bs k :
  randomBytes now i n = Some bs → (k < n)%nat → is_Some (bs !! k).
Proof.
  intros Hbs Hk. apply lookup_lt_is_Some. by rewrite (randomBytes_length _ _ _ _ Hbs).
Qed.

Lemma get_lookup (s : string) (n : nat) :
  String.get n s = list_ascii_of_string s !! n.
Proof.
  revert n. induction s as [|a s IH]; intros [|n]; simpl; auto.
Qed.

Lemma charsetAt_inj a b x :
  charsetAt a = Some x → charsetAt b = Some x → a = b.
Proof.
  unfold charsetAt. intros Ha Hb.
  destruct (Z.ltb_spec a 0); [done|]. destruct (Z.ltb_spec b 0); [done|].
  rewrite get_lookup in Ha, Hb.
  assert (Hnd : NoDup (list_ascii_of_string charset))
    by (apply (bool_decide_unpack _); vm_compute; exact I).
  pose proof (NoDup_lookup _ _ _ _ Hnd Ha Hb). lia.
Qed.

Lemma append_length (a b : string) :
  String.length (a +:+ b) = (String.length a + String.length b)%nat.
Proof. induction a; simpl; auto. Qed.

Lemma append_cons (ch : ascii) (a x : string) :
  String ch a +:+ x = String ch (a +:+ x).
Proof. reflexivity. Qed.

Lemma append_inj_suffix (a b x y : string) :
  String.length x = String.length y → a +:+ x = b +:+ y → a = b ∧ x = y.
Proof.
  intros Hlen. revert b. induction a as [|ch a IH]; intros [|ch' b] Heq.
  - done.
  - change (x = String ch' (b +:+ y)) in Heq. subst x.
    simpl in Hlen. rewrite append_length in Hlen. lia.
  - change (String ch (a +:+ x) = y) in Heq. subst y.
    simpl in Hlen. rewrite append_length in Hlen. lia.
  - rewrite !append_cons in Heq. injection Heq as -> Heq.
    destruct (IH _ Heq) as [-> ->]. done.
Qed.

Lemma string_of_list_ascii_inj (l1 l2 : list ascii) :
  string_of_list_ascii l1 = string_of_list_ascii l2 → l1 = l2.
Proof.
  intros H. rewrite <- (list_ascii_of_string_of_list_ascii l1),
    <- (list_ascii_of_string_of_list_ascii l2). by rewrite H.
Qed.

Lemma string_of_list_ascii_length (l : list ascii) :
  String.length (string_of_list_ascii l) = length l.
Proof. induction l; simpl; auto. Qed.

Lemma generateClientID_Some now id :
  generateClientID now = Some id →
  ∃ bs, randomBytes (λ i, now (S i)) 0 8 = Some bs ∧
        id = Format (now 0) +:+ "-" +:+ string_of_list_ascii bs.
Proof.
  unfold generateClientID, generateRandomString.
  destruct (randomBytes (λ i, now (S i)) 0 8) as [bs|]; simpl; [|done].
  intros [= <-]. eauto.
Qed.

(** C6, as stated, fails: the two connections get the same id, and the
    second registration takes over the entry of the first in the primary
    map; the first session, never unregistered, is left in the user index
    only. *)
Lemma later_registration_replaces_earlier :
  (unixNano (clockA 9) < unixNano (clockB 0))%Z ∧
  generateClientID clockA = Some session0_id ∧
  generateClientID clockB = Some session0_id ∧
  ∃ s, run [OpConnect (Some 7%N) clockA; OpConnect (Some 8%N) clockB] NewManager
       = Ok s ∧
       ID <$> heap s !! 0 = Some session0_id ∧
       ID <$> heap s !! 1 = Some session0_id ∧
       in_clients s session0_id = Some 1 ∧
       GetClientCount s = 1 ∧
       in_userClients s 7 session0_id = Some 0.
Proof.
  split; [vm_compute; reflexivity|].
  split; [vm_compute; reflexivity|]. split; [vm_compute; reflexivity|].
  eexists. split; [vm_compute; reflexivity|]. vm_compute. repeat split.
Qed.

(** C6, amended. A session id is the clock formatted to the second, a
    dash, and eight characters of which the i-th is picked by the i-th
    later clock reading modulo 62; two ids are therefore equal exactly
    when the formatted seconds agree and the eight readings agree modulo
    62, and distinct otherwise. [registerClient] stores the client under
    its id in the primary map whatever was stored there before. *)
Theorem generateClientID_equal_iff now1 now2 id1 id2 :
  generateClientID now1 = Some id1 →
  generateClientID now2 = Some id2 →
  (id1 = id2 ↔
   Format (now1 0) = Format (now2 0) ∧
   ∀ i, (1 ≤ i ≤ 8)%nat →
        Z.rem (unixNano (now1 i)) 62 = Z.rem (unixNano (now2 i)) 62) ∧
  (∀ t p s c, heap s !! p = Some c →
     in_clients (state_of (registerClient t p s)) (ID c) = Some p).
Proof.
  intros H1 H2.
  apply generateClientID_Some in H1 as (bs1 & Hbs1 & ->).
  apply generateClientID_Some in H2 as (bs2 & Hbs2 & ->).
  pose proof (randomBytes_length _ _ _ _ Hbs1) as Hl1.
  pose proof (randomBytes_length _ _ _ _ Hbs2) as Hl2.
  split; [split|].
  - intros Heq. apply append_inj_suffix in Heq as [HF Hsuf].
    2:{ by rewrite !append_length, !string_of_list_ascii_length, Hl1, Hl2. }
    split; [done|]. intros i Hi.
    rewrite !append_cons in Hsuf. injection Hsuf as Hsuf.
    change (string_of_list_ascii bs1 = string_of_list_ascii bs2) in Hsuf.
    apply string_of_list_ascii_inj in Hsuf. subst bs2.
    destruct i as [|k]; [lia|].
    destruct (randomBytes_is_Some _ _ _ _ k Hbs1) as [x Hx]; [lia|].
    pose proof Hx as Hx'.
    rewrite (randomBytes_lookup _ _ _ _ k Hbs1) in Hx by lia.
    rewrite (randomBytes_lookup _ _ _ _ k Hbs2) in Hx' by lia.
    simpl in Hx, Hx'. eapply charsetAt_inj; eauto.
  - intros [HF Hchars]. rewrite HF. do 3 f_equal.
    apply list_eq. intros k.
    destruct (decide (k < 8)%nat) as [Hk|Hk].
    + rewrite (randomBytes_lookup _ _ _ _ k Hbs1),
        (randomBytes_lookup _ _ _ _ k Hbs2) by lia.
      simpl. by rewrite (Hchars (S k)) by lia.
    + rewrite !lookup_ge_None_2; [done|lia..].
  - intros t p s c Hp. pose proof (registerClient_cases t p s) as Hcases.
    rewrite Hp in Hcases. unfold in_clients.
    destruct Hcases as [->|[ch ->]]; simpl; by rewrite lookup_insert_eq.
Qed.

Lemma generateClientID_equal_iff_witness :
  generateClientID (demo_clock 1) = Some "20240517090301-fQr2DePq" ∧
  generateClientID (demo_clock 2) = Some "20240517090302-v6HiTu5G" ∧
  "20240517090301-fQr2DePq" ≠ "20240517090302-v6HiTu5G".
Proof.
  split; [vm_compute; reflexivity|]. split; [vm_compute; reflexivity|].
  intros Hid.
  destruct (generateClientID_equal_iff (demo_clock 1) (demo_clock 2)
              "20240517090301-fQr2DePq" "20240517090302-v6HiTu5G")
    as [[Hto _] _]; [vm_compute; reflexivity..|].
  destruct (Hto Hid) as [HF _]. vm_compute in HF. discriminate HF.
Defined.

(** ** Frames the reader does not act on *)

(** C3, as stated, fails: a subscribe frame whose data has the wrong
    shape gets no answer at all, and a frame that does not decode ends the
    reader, which unregisters the session and closes its mailbox. *)
Lemma malformed_frame_not_answered :
  (∃ s', readPump [(demo_clock 5 0, Decoded misshapen)] 0 demo_state = Ok s' ∧
         ¬ answered_with_error demo_state s' 0) ∧
  (∃ s', readPump [(demo_clock 5 0, ReadErr Undecodable)] 0 demo_state = Ok s' ∧
         in_clients demo_state session0_id = Some 0 ∧
         in_clients s' session0_id = None ∧
         mailbox s' 0 = Some (2, true)).
Proof.
  split.
  - exists demo_state. split; [vm_compute; reflexivity|].
    intros (c & c' & e & Hc & Hc' & Hbuf & _).
    assert (c' = c) as -> by congruence.
    apply (f_equal length) in Hbuf. rewrite length_app in Hbuf. simpl in Hbuf. lia.
  - eexists. split; [vm_compute; reflexivity|]. vm_compute. repeat split.
Qed.

Lemma sendOrDrop_no_error response p s c c' e :
  Type_ response ≠ TypeError →
  heap s !! p = Some c →
  heap (state_of (sendOrDrop response p s)) !! p = Some c' →
  e ∈ buf (Send c') → e ∈ buf (Send c) ∨ Type_ e ≠ TypeError.
Proof.
  intros Hty Hp. unfold sendOrDrop, trySend. rewrite Hp.
  destruct (closed (Send c)); simpl;
    [intros Hc' He; left; by replace c with c' by congruence|].
  destruct (length (buf (Send c)) <? cap (Send c))%nat; simpl.
  - rewrite lookup_insert_eq. intros [= <-]. simpl.
    intros [?|He%list_elem_of_singleton]%elem_of_app; [by left|].
    right. by subst e.
  - intros Hc' He; left; by replace c with c' by congruence.
Qed.

(** C3, amended. For a client [c] at [p]: a decoded frame that is
    [ignored] leaves the whole state as it was (nothing is enqueued, the
    session is not torn down) and the reader goes on with the next frame;
    no decoded frame of any kind puts a message of type error into the
    mailbox; and any error of [ReadJSON], an undecodable frame included, ends
    the reader, which takes a registered session with an open mailbox out
    of the primary map, closes its mailbox channel and its connection. *)
Theorem ignored_frames_and_read_errors now p s c reads :
  heap s !! p = Some c →
  (∀ msg, ignored msg = true →
     handleMessage now p msg s = Ok s ∧
     readPump ((now, Decoded msg) :: reads) p s = readPump reads p s) ∧
  (∀ msg c' e, heap (state_of (handleMessage now p msg s)) !! p = Some c' →
     e ∈ buf (Send c') → e ∈ buf (Send c) ∨ Type_ e ≠ TypeError) ∧
  (∀ err, in_clients s (ID c) = Some p → closed (Send c) = false →
     ∃ s', readPump ((now, ReadErr err) :: reads) p s = Ok s' ∧
           in_clients s' (ID c) = None ∧
           heap s' !! p
           = Some (setConn ConnClosed
                     (setSend {| buf := buf (Send c); cap := cap (Send c);
                                 closed := true |} c))).
Proof.
  intros Hp. split; [|split].
  - intros msg Hign.
    assert (Hok : handleMessage now p msg s = Ok s).
    { unfold ignored in Hign. unfold handleMessage, handleSubscribe,
        handleUnsubscribe.
      destruct (String.eqb (Type_ msg) TypeSubscribe); simpl in Hign.
      - by destruct (deviceIDOf msg).
      - destruct (String.eqb (Type_ msg) TypeUnsubscribe); simpl in Hign.
        + by destruct (deviceIDOf msg).
        + by destruct (String.eqb (Type_ msg) TypeHeartbeat). }
    split; [done|]. cbn [readPump]. by rewrite Hok.
  - intros msg c' e. unfold handleMessage, handleHeartbeat.
    destruct (String.eqb (Type_ msg) TypeSubscribe).
    { unfold handleSubscribe. destruct (deviceIDOf msg) as [d|];
        [|simpl; intros Hc' He; left; by replace c with c' by congruence].
      rewrite Hp. intros Hc' He.
      set (c1 := setSubscriptions (<[d:=true]> (Subscriptions c)) c) in *.
      apply (sendOrDrop_no_error (subscribedMsg now d) p (store p c1 s) c1 c' e);
        [done| |exact Hc'|exact He].
      simpl. by rewrite lookup_insert_eq. }
    destruct (String.eqb (Type_ msg) TypeUnsubscribe).
    { unfold handleUnsubscribe. destruct (deviceIDOf msg) as [d|];
        [|simpl; intros Hc' He; left; by replace c with c' by congruence].
      rewrite Hp. simpl. rewrite lookup_insert_eq. intros [= <-]. auto. }
    destruct (String.eqb (Type_ msg) TypeHeartbeat);
      [|simpl; intros Hc' He; left; by replace c with c' by congruence].
    intros Hc' He.
    by apply (sendOrDrop_no_error (aliveMsg now) p s c c' e).
  - intros err Hreg Hopen. cbn [readPump]. unfold readPumpExit, unregisterClient.
    unfold in_clients in Hreg. rewrite Hp, Hreg.
    unfold closeChan. rewrite Hopen. cbn [andThen]. unfold closeConn. simpl.
    rewrite lookup_insert_eq. eexists. split; [reflexivity|]. simpl.
    unfold in_clients. simpl. rewrite lookup_delete_eq.
    by rewrite lookup_insert_eq.
Qed.

Lemma ignored_frames_and_read_errors_witness :
  ignored misshapen = true ∧
  readPump [(demo_clock 5 0, Decoded misshapen);
            (demo_clock 5 1, Decoded (subscribeFrame "dev-2"))] 0 demo_state
  = readPump [(demo_clock 5 1, Decoded (subscribeFrame "dev-2"))] 0 demo_state.
Proof.
  split; [vm_compute; reflexivity|].
  destruct (ignored_frames_and_read_errors (demo_clock 5 0) 0 demo_state
              (default (mkClient "" 0 ConnOpen (makeChan 0) ∅)
                       (heap demo_state !! 0))
              [(demo_clock 5 1, Decoded (subscribeFrame "dev-2"))])
    as (Hign & _ & _); [vm_compute; reflexivity|].
  destruct (Hign misshapen) as [_ Hread]; [vm_compute; reflexivity|].
  exact Hread.
Defined.

(** ** Broadcast *)

Lemma attempt_identity message c :
  ID (attempt message c) = ID c ∧ UserID (attempt message c) = UserID c ∧
  Subscriptions (attempt message c) = Subscriptions c ∧
  Conn (attempt message c) = Conn c.
Proof. unfold attempt. by destruct (trySend (Send c) message). Qed.

Lemma broadcastBody_open message e s c :
  heap s !! e.2 = Some c → closed (Send c) = false →
  broadcastBody message e s
  = Ok {| heap := <[e.2 := attempt message c]> (heap s);
          clients := if full (Send c) then delete (ID c) (clients s)
                     else clients s;
          userClients := userClients s |}.
Proof.
  intros Hc Hopen. unfold broadcastBody, attempt, trySend, closeChan, full.
  rewrite Hc, Hopen.
  by destruct (length (buf (Send c)) <? cap (Send c))%nat.
Qed.

Lemma forEach_broadcastBody message xs s :
  NoDup xs.*2 →
  (∀ p, p ∈ xs.*2 → ∃ c, heap s !! p = Some c ∧ closed (Send c) = false) →
  ∃ s', forEach (broadcastBody message) xs s = Ok s' ∧
        userClients s' = userClients s ∧
        (∀ p, heap s' !! p =
              (λ c, if decide (p ∈ xs.*2) then attempt message c else c)
                <$> heap s !! p) ∧
        (∀ i q, clients s' !! i = Some q ↔
                clients s !! i = Some q ∧
                ∀ p c, p ∈ xs.*2 → heap s !! p = Some c → ID c = i →
                       full (Send c) = false).
Proof.
  revert s. induction xs as [|e xs IH]; intros s Hnd Hopen.
  - exists s. split; [done|]. split; [done|]. split.
    + intros p. by destruct (heap s !! p).
    + intros i q. split; [|tauto]. intros Hq. split; [done|].
      intros p c Hp. by apply elem_of_nil in Hp.
  - rewrite fmap_cons in Hnd. apply NoDup_cons in Hnd as [Hnotin Hnd].
    destruct (Hopen e.2) as (c & Hc & Hcopen); [rewrite fmap_cons; left|].
    set (s1 := {| heap := <[e.2 := attempt message c]> (heap s);
                  clients := if full (Send c) then delete (ID c) (clients s)
                             else clients s;
                  userClients := userClients s |}).
    assert (Hother : ∀ p, p ∈ xs.*2 → heap s1 !! p = heap s !! p).
    { intros p Hp. simpl. rewrite lookup_insert_ne; [done|]. by intros <-. }
    destruct (IH s1 Hnd) as (s' & Hs' & Hu' & Hh' & Hc').
    { intros p Hp. rewrite (Hother p Hp). apply Hopen. rewrite fmap_cons. by right. }
    exists s'. split.
    { cbn [forEach]. rewrite (broadcastBody_open _ _ _ c Hc Hcopen). exact Hs'. }
    split; [done|]. split.
    + intros p. rewrite Hh', fmap_cons. simpl.
      destruct (decide (e.2 = p)) as [<-|Hne].
      * rewrite lookup_insert_eq, Hc. cbn [fmap option_fmap option_map].
        rewrite decide_False by done. by rewrite decide_True by left.
      * rewrite lookup_insert_ne by done.
        destruct (heap s !! p) as [d|]; cbn [fmap option_fmap option_map]; [|done].
        destruct (decide (p ∈ xs.*2)) as [Hin|Hnin].
        -- by rewrite decide_True by (by right).
        -- rewrite decide_False; [done|].
           intros [?|?]%elem_of_cons; congruence.
    + intros i q. rewrite Hc', fmap_cons. simpl. split.
      * intros [Hq Hrest]. split.
        -- destruct (full (Send c)); [|done].
           apply lookup_delete_Some in Hq. tauto.
        -- intros p d [->|Hp]%elem_of_cons Hd Hid.
           ++ assert (d = c) as -> by congruence.
              destruct (full (Send c)) eqn:Hfull; [|done].
              apply lookup_delete_Some in Hq. tauto.
           ++ apply (Hrest p d Hp); [|done]. by rewrite lookup_insert_ne by by intros <-.
      * intros [Hq Hall]. split.
        -- destruct (full (Send c)) eqn:Hfull; [|done].
           rewrite lookup_delete_ne; [done|]. intros Hid.
           rewrite (Hall e.2 c) in Hfull; [done|by left|done|done].
        -- intros p d Hp Hd Hid. apply (Hall p d); [by right| |done].
           by rewrite lookup_insert_ne in Hd by by intros <-.
Qed.

(** [broadcastMessage] on a state the manager can reach, in which no
    registered client has a closed mailbox channel, returns; every client
    in the primary map gets the send-or-close attempt, every other client
    is left as it was; the user index is unchanged; and the primary map
    keeps exactly the entries of the clients whose mailbox was not full. *)
Theorem broadcastMessage_exact ops s message :
  state_of (run ops NewManager) = s →
  registered_open s = true →
  ∃ s', broadcastMessage message s = Ok s' ∧
    userClients s' = userClients s ∧
    (∀ p, heap s' !! p =
          (λ c, if registered s p c then attempt message c else c)
            <$> heap s !! p) ∧
    (∀ i p, clients s' !! i = Some p ↔
            clients s !! i = Some p ∧
            ∃ c, heap s !! p = Some c ∧ full (Send c) = false).
Proof.
  intros Hrun Hopen.
  assert (Hs : indexed s) by (subst s; apply run_indexed, NewManager_indexed).
  destruct (forEach_broadcastBody message (map_to_list (clients s)) s)
    as (s' & Hok & Hu & Hh & Hc).
  { eapply NoDup_ptrs, Hs. }
  { intros p Hp.
    destruct (open_or_skipped_spec (λ _, true) s (clients s) (proj1 Hs) Hopen p Hp)
      as (c & Hc & Hcopen). eauto. }
  exists s'. split; [exact Hok|]. split; [done|]. split.
  - intros p. rewrite Hh. destruct (heap s !! p) as [c|] eqn:Hp; [|done].
    cbn [fmap option_fmap option_map]. f_equal.
    destruct (decide (p ∈ (map_to_list (clients s)).*2)) as [Hin|Hnin].
    + apply (registered_ptrs s p c) in Hin; [|done..]. by rewrite Hin.
    + destruct (registered s p c) eqn:Hr; [|done].
      apply (registered_ptrs s p c) in Hr; done.
  - intros i p. rewrite Hc. split.
    + intros [Hp Hall]. split; [done|].
      destruct (proj1 Hs _ _ Hp) as (c & Hpc & Hid). exists c. split; [done|].
      apply (Hall p c); [|done..]. apply elem_of_ptrs. eauto.
    + intros [Hp (c & Hpc & Hfull)]. split; [done|].
      intros q d Hq Hd Hid. apply elem_of_ptrs in Hq as [j Hj].
      destruct (proj1 Hs _ _ Hj) as (d' & Hd' & Hjd).
      assert (j = i) as -> by congruence.
      assert (q = p) as -> by congruence. congruence.
Qed.

Lemma broadcastMessage_exact_witness :
  registered_open saturated = true ∧
  ∃ s', broadcastMessage notice saturated = Ok s' ∧
        clients s' !! session0_id = None.
Proof.
  split; [vm_compute; reflexivity|].
  destruct (broadcastMessage_exact saturating_ops saturated notice)
    as (s' & Hok & _ & _ & Hc); [vm_compute; reflexivity..|].
  exists s'. split; [exact Hok|].
  destruct (clients s' !! session0_id) as [p|] eqn:Hp; [|done].
  apply Hc in Hp as [Hp (c & Hpc & Hfull)].
  vm_compute in Hp. injection Hp as <-.
  vm_compute in Hpc. injection Hpc as <-. vm_compute in Hfull. discriminate.
Defined.

(** ** Isolation between users *)

(** On a state the manager can reach, [SendToUser] leaves every client
    whose user id differs from the addressed one exactly as it was,
    whether the call returns or panics. *)
Theorem SendToUser_other_users ops s userID message p c :
  state_of (run ops NewManager) = s →
  heap s !! p = Some c → UserID c ≠ userID →
  heap (state_of (SendToUser userID message s)) !! p = Some c.
Proof.
  intros Hrun Hp Hother.
  assert (Hs : indexed s) by (subst s; apply run_indexed, NewManager_indexed).
  unfold SendToUser. destruct (userClients s !! userID) as [uc|] eqn:Huc; [|done].
  apply (forEach_inv (λ s0, heap s0 !! p = Some c)); [done|].
  intros [i q] s0 Hin H0. simpl. rewrite sendOrClose_other; [done|].
  intros ->. apply elem_of_map_to_list in Hin.
  destruct (proj2 Hs _ _ _ _ Huc Hin) as (d & Hd & _ & Hu). congruence.
Qed.

Lemma SendToUser_other_users_witness :
  heap (state_of (SendToUser 8 notice demo_state)) !! 0 = heap demo_state !! 0.
Proof.
  rewrite (SendToUser_other_users demo_ops demo_state 8%N notice 0
             (default (mkClient "" 0 ConnOpen (makeChan 0) ∅)
                      (heap demo_state !! 0))).
  - vm_compute; reflexivity.
  - vm_compute; reflexivity.
  - vm_compute; reflexivity.
  - vm_compute; discriminate.
Defined.

(** [SendToUser] and [SendToDevice] never add or remove a session: on
    every state, whatever the mailboxes hold and whether the call returns
    or panics, both maps and hence both counts are what they were. *)
Theorem dispatch_keeps_registry s userID deviceID message :
  (clients (state_of (SendToUser userID message s)) = clients s ∧
   userClients (state_of (SendToUser userID message s)) = userClients s ∧
   GetClientCount (state_of (SendToUser userID message s)) = GetClientCount s) ∧
  (clients (state_of (SendToDevice deviceID message s)) = clients s ∧
   userClients (state_of (SendToDevice deviceID message s)) = userClients s ∧
   GetClientCount (state_of (SendToDevice deviceID message s))
   = GetClientCount s).
Proof.
  destruct (SendToUser_only_heap userID message s) as (_ & Hc1 & Hu1).
  destruct (SendToDevice_only_heap deviceID message s) as (_ & Hc2 & Hu2).
  unfold GetClientCount. rewrite Hc1, Hc2. by repeat split.
Qed.

(** ** Counting sessions *)

Lemma bucket_sum_insert (users : gmap N (gmap string nat)) u uc :
  map_fold (λ _ (b : gmap string nat) n, size b + n) 0 (<[u := uc]> users)
  = size uc + map_fold (λ _ (b : gmap string nat) n, size b + n) 0 (delete u users).
Proof.
  rewrite <- insert_delete_eq.
  rewrite map_fold_insert_L; [done| |by rewrite lookup_delete_eq].
  intros. lia.
Qed.

Lemma bucket_sum_lookup (users : gmap N (gmap string nat)) u uc :
  users !! u = Some uc →
  map_fold (λ _ (b : gmap string nat) n, size b + n) 0 users
  = size uc + map_fold (λ _ (b : gmap string nat) n, size b + n) 0 (delete u users).
Proof.
  intros Hu.
  apply (map_fold_delete_L (λ _ (b : gmap string nat) n, size b + n) 0 u uc users);
    [intros; lia|done].
Qed.

Lemma GetUserClientCount_default s u :
  GetUserClientCount u s = size (default ∅ (userClients s !! u)).
Proof. unfold GetUserClientCount. by destruct (userClients s !! u). Qed.

Lemma registered_maps_counts p c s :
  clients s !! ID c = None →
  in_userClients s (UserID c) (ID c) = None →
  GetClientCount (registered_maps p c s) = S (GetClientCount s) ∧
  indexedCount (registered_maps p c s) = S (indexedCount s) ∧
  GetUserClientCount (UserID c) (registered_maps p c s)
  = S (GetUserClientCount (UserID c) s) ∧
  ∀ u, u ≠ UserID c →
       GetUserClientCount u (registered_maps p c s) = GetUserClientCount u s.
Proof.
  intros Hfree Hbucket.
  assert (Hinner : default ∅ (userClients s !! UserID c) !! ID c = None).
  { unfold in_userClients in Hbucket.
    destruct (userClients s !! UserID c); simpl in *; [done|apply lookup_empty]. }
  split; [|split; [|split]].
  - unfold GetClientCount. simpl. by apply map_size_insert_None.
  - unfold indexedCount. simpl. rewrite bucket_sum_insert.
    rewrite map_size_insert_None by done.
    destruct (userClients s !! UserID c) as [uc|] eqn:Hu; simpl.
    + by rewrite (bucket_sum_lookup _ _ _ Hu).
    + by rewrite delete_id.
  - rewrite !GetUserClientCount_default. simpl. rewrite lookup_insert_eq. simpl.
    by apply map_size_insert_None.
  - intros u Hne. unfold GetUserClientCount. simpl.
    by rewrite lookup_insert_ne.
Qed.

Lemma store_counts p c s u :
  GetClientCount (store p c s) = GetClientCount s ∧
  indexedCount (store p c s) = indexedCount s ∧
  GetUserClientCount u (store p c s) = GetUserClientCount u s.
Proof. done. Qed.

(** A connection whose generated id is in neither map raises
    [GetClientCount] and the [GetUserClientCount] of its user by one and
    leaves the count of every other user alone; a connection whose id is
    already in the primary map leaves [GetClientCount] as it was. *)
Theorem HandleWebSocket_counts user_id now s id :
  generateClientID now = Some id →
  (clients s !! id = None →
   in_userClients s (getUserIDFromContext user_id) id = None →
   ∃ s', HandleWebSocket user_id now s = Ok s' ∧
     GetClientCount s' = S (GetClientCount s) ∧
     GetUserClientCount (getUserIDFromContext user_id) s'
     = S (GetUserClientCount (getUserIDFromContext user_id) s) ∧
     ∀ u, u ≠ getUserIDFromContext user_id →
          GetUserClientCount u s' = GetUserClientCount u s) ∧
  (is_Some (clients s !! id) →
   ∃ s', HandleWebSocket user_id now s = Ok s' ∧
     GetClientCount s' = GetClientCount s).
Proof.
  intros Hid. unfold HandleWebSocket. rewrite Hid.
  set (p0 := fresh (dom (heap s))).
  set (c0 := {| ID := id; UserID := getUserIDFromContext user_id;
                Conn := ConnOpen; Send := makeChan 256; Subscriptions := ∅ |}).
  assert (Hreg : registerClient (now 9) p0 (store p0 c0 s)
            = Ok (store p0 (setSend {| buf := [welcomeMsg (now 9)]; cap := 256;
                                       closed := false |} c0)
                        (registered_maps p0 c0 (store p0 c0 s)))).
  { unfold registerClient. simpl. rewrite lookup_insert_eq. reflexivity. }
  rewrite Hreg. split.
  - intros Hfree Hbucket. eexists. split; [reflexivity|].
    destruct (registered_maps_counts p0 c0 (store p0 c0 s) Hfree Hbucket)
      as (H1 & _ & H3 & H4).
    repeat split; [exact H1|exact H3|exact H4].
  - intros Htaken. eexists. split; [reflexivity|].
    unfold GetClientCount. simpl. by apply map_size_insert_Some.
Qed.

Lemma HandleWebSocket_counts_witness :
  ∃ s', HandleWebSocket (Some 7%N) (demo_clock 6) demo_state = Ok s' ∧
        GetClientCount s' = 4.
Proof.
  destruct (HandleWebSocket_counts (Some 7%N) (demo_clock 6) demo_state
              "20240517090306-x8JkVw7I") as [Hfresh _]; [vm_compute; reflexivity|].
  destruct Hfresh as (s' & Hok & Hcount & _); [vm_compute; reflexivity..|].
  exists s'. split; [exact Hok|]. rewrite Hcount. vm_compute. reflexivity.
Defined.

Lemma unregisterClient_maps p s c uc :
  heap s !! p = Some c → is_Some (clients s !! ID c) →
  userClients s !! UserID c = Some uc →
  clients (state_of (unregisterClient p s)) = delete (ID c) (clients s) ∧
  userClients (state_of (unregisterClient p s))
  = (if decide (size (delete (ID c) uc) = 0)
     then delete (UserID c) (userClients s)
     else <[UserID c := delete (ID c) uc]> (userClients s)).
Proof.
  intros Hp [q Hq] Hu. unfold unregisterClient. rewrite Hp, Hq, Hu.
  by destruct (closeChan (Send c)).
Qed.

Lemma unregisterClient_counts_entry p s c uc :
  heap s !! p = Some c → is_Some (clients s !! ID c) →
  userClients s !! UserID c = Some uc → is_Some (uc !! ID c) →
  S (GetClientCount (state_of (unregisterClient p s))) = GetClientCount s ∧
  S (indexedCount (state_of (unregisterClient p s))) = indexedCount s ∧
  S (GetUserClientCount (UserID c) (state_of (unregisterClient p s)))
  = GetUserClientCount (UserID c) s ∧
  ∀ u, u ≠ UserID c →
       GetUserClientCount u (state_of (unregisterClient p s))
       = GetUserClientCount u s.
Proof.
  intros Hp Hq Hu Hi.
  destruct (unregisterClient_maps p s c uc Hp Hq Hu) as [Hc' Hu'].
  assert (Hsz : S (size (delete (ID c) uc)) = size uc).
  { rewrite map_size_delete_Some by done.
    assert (size uc ≠ 0) by (apply map_size_ne_0_lookup; eauto). lia. }
  split; [|split; [|split]].
  - unfold GetClientCount. rewrite Hc', map_size_delete_Some by done.
    assert (size (clients s) ≠ 0) by (apply map_size_ne_0_lookup; eauto). lia.
  - unfold indexedCount. rewrite Hu', (bucket_sum_lookup _ _ _ Hu).
    destruct (decide (size (delete (ID c) uc) = 0)) as [Hz|Hnz].
    + lia.
    + rewrite bucket_sum_insert. lia.
  - unfold GetUserClientCount. rewrite Hu', Hu.
    destruct (decide (size (delete (ID c) uc) = 0)) as [Hz|Hnz].
    + rewrite lookup_delete_eq. lia.
    + rewrite lookup_insert_eq. lia.
  - intros u Hne. unfold GetUserClientCount. rewrite Hu'.
    destruct (decide (size (delete (ID c) uc) = 0)).
    + by rewrite lookup_delete_ne.
    + by rewrite lookup_insert_ne.
Qed.

Lemma unregisterClient_absent p s c :
  heap s !! p = Some c → clients s !! ID c = None →
  unregisterClient p s = Ok s.
Proof. intros Hp Hq. unfold unregisterClient. by rewrite Hp, Hq. Qed.

(** Every bucket of the user index is non-empty. *)
Lemma exec_no_empty_bucket op s :
  no_empty_bucket s → no_empty_bucket (state_of (exec op s)).
Proof.
  intros Hs.
  assert (Hsame : ∀ s', userClients s' = userClients s → no_empty_bucket s').
  { intros s' Heq u uc. rewrite Heq. apply Hs. }
  assert (Hreg : ∀ t p s0, userClients s0 = userClients s →
            no_empty_bucket (state_of (registerClient t p s0))).
  { intros t p s0 Heq. pose proof (registerClient_cases t p s0) as Hcases.
    destruct (heap s0 !! p) as [c|]; [|rewrite Hcases; by apply Hsame].
    assert (Hmaps : no_empty_bucket (registered_maps p c s0)).
    { intros u uc. simpl. rewrite Heq.
      intros [[<- <-]|[_ Hu]]%lookup_insert_Some; [|by eapply Hs].
      apply insert_non_empty. }
    destruct Hcases as [->|[ch ->]]; [done|]. intros u uc. apply Hmaps. }
  destruct op; simpl.
  - unfold HandleWebSocket. destruct (generateClientID now); [|done].
    by apply Hreg.
  - unfold unregisterClient.
    destruct (heap s !! p) as [c|]; [|done].
    destruct (clients s !! ID c); [|done].
    assert (Hmaps : ∀ u uc,
      match userClients s !! UserID c with
      | Some uc0 =>
        if decide (size (delete (ID c) uc0) = 0)
        then delete (UserID c) (userClients s)
        else <[UserID c := delete (ID c) uc0]> (userClients s)
      | None => userClients s
      end !! u = Some uc → uc ≠ ∅).
    { intros u uc. destruct (userClients s !! UserID c) as [uc0|]; [|apply Hs].
      destruct (decide (size (delete (ID c) uc0) = 0)) as [Hz|Hnz].
      - intros [_ Hu]%lookup_delete_Some. by eapply Hs.
      - intros [[<- <-]|[_ Hu]]%lookup_insert_Some; [|by eapply Hs].
        by apply map_size_non_empty_iff. }
    destruct (closeChan (Send c)); simpl; intros u uc; apply Hmaps.
  - apply Hsame, broadcastMessage_userClients.
  - apply Hsame, SendToUser_only_heap.
  - apply Hsame, SendToDevice_only_heap.
  - apply Hsame, handleMessage_only_heap.
  - apply Hsame, writePumpStep_only_heap.
Qed.

(** Along every run of the manager the user index holds no empty bucket:
    a user has a bucket exactly when [GetUserClientCount] is not zero. *)
Theorem GetUserClientCount_zero_iff ops s u :
  state_of (run ops NewManager) = s →
  GetUserClientCount u s = 0 ↔ userClients s !! u = None.
Proof.
  intros <-.
  assert (Hne : no_empty_bucket (state_of (run ops NewManager))).
  { apply run_inv; [|apply exec_no_empty_bucket].
    intros u' uc. simpl. by rewrite lookup_empty. }
  unfold GetUserClientCount.
  destruct (userClients (state_of (run ops NewManager)) !! u) as [uc|] eqn:Hu;
    [|done].
  split; [|done]. intros Hz. apply map_size_empty_iff in Hz.
  by apply Hne in Hu.
Qed.

Lemma GetUserClientCount_zero_iff_witness :
  GetUserClientCount 7 calm_state = 1 ∧
  userClients calm_state !! 8%N = None ∧
  GetUserClientCount 8 calm_state = 0.
Proof.
  split; [vm_compute; reflexivity|]. split; [vm_compute; reflexivity|].
  apply (GetUserClientCount_zero_iff calm_ops calm_state 8%N);
    vm_compute; reflexivity.
Defined.

Lemma run_inv_guarded (P : State → Prop) ops s :
  P s →
  (∀ op s0, P s0 → ids_inj (state_of (exec op s0)) →
     match op with
     | OpBroadcast _ => clients (state_of (exec op s0)) = clients s0
     | _ => True
     end → P (state_of (exec op s0))) →
  no_eviction ops s → ids_inj (state_of (run ops s)) →
  P (state_of (run ops s)).
Proof.
  intros Hs Hstep. revert s Hs.
  induction ops as [|op ops IH]; intros s Hs Hquiet Hinj; [done|].
  destruct Hquiet as [Hop Hrest].
  assert (Hinj1 : ids_inj (state_of (exec op s))).
  { cbn [run] in Hinj. destruct (exec op s) as [s1|why s1]; simpl in *; [|done].
    eapply ids_inj_mono; [apply run_heap_grows|done]. }
  pose proof (Hstep op s Hs Hinj1 Hop) as H1.
  cbn [run] in *. destruct (exec op s) as [s1|why s1]; simpl in *; auto.
Qed.

Lemma HandleWebSocket_state user_id now s id :
  generateClientID now = Some id →
  HandleWebSocket user_id now s
  = Ok (store (fresh (dom (heap s)))
         {| ID := id; UserID := getUserIDFromContext user_id; Conn := ConnOpen;
            Send := {| buf := [welcomeMsg (now 9)]; cap := 256; closed := false |};
            Subscriptions := ∅ |}
         (registered_maps (fresh (dom (heap s)))
            {| ID := id; UserID := getUserIDFromContext user_id;
               Conn := ConnOpen; Send := makeChan 256; Subscriptions := ∅ |}
            (store (fresh (dom (heap s)))
               {| ID := id; UserID := getUserIDFromContext user_id;
                  Conn := ConnOpen; Send := makeChan 256; Subscriptions := ∅ |}
               s))).
Proof.
  intros Hid. unfold HandleWebSocket. rewrite Hid.
  unfold registerClient. simpl. by rewrite lookup_insert_eq.
Qed.

Lemma HandleWebSocket_fresh_id user_id now s id :
  indexed s → generateClientID now = Some id →
  ids_inj (state_of (HandleWebSocket user_id now s)) →
  clients s !! id = None ∧ ∀ u, in_userClients s u id = None.
Proof.
  intros [Hic Hiu] Hid Hinj. rewrite (HandleWebSocket_state _ _ _ _ Hid) in Hinj.
  set (p0 := fresh (dom (heap s))) in *.
  assert (Hnew : ∀ q d, heap s !! q = Some d → ID d ≠ id).
  { intros q d Hq Heq.
    assert (Hqp : q ≠ p0)
      by (intros ->; subst p0; by rewrite fresh_ptr_None in Hq).
    apply Hqp. eapply (Hinj q p0); simpl.
    - rewrite lookup_insert_ne by done. rewrite lookup_insert_ne by done. exact Hq.
    - by rewrite lookup_insert_eq.
    - done. }
  split.
  - destruct (clients s !! id) as [q|] eqn:Hq; [|done].
    destruct (Hic _ _ Hq) as (d & Hd & Hdi). by destruct (Hnew _ _ Hd).
  - intros u. destruct (in_userClients s u id) as [q|] eqn:Hq; [|done].
    apply in_userClients_Some in Hq as (uc & H1 & H2).
    destruct (Hiu _ _ _ _ H1 H2) as (d & Hd & Hdi & _). by destruct (Hnew _ _ Hd).
Qed.

Lemma exec_counts_agree op s :
  consistent s ∧ GetClientCount s = indexedCount s →
  ids_inj (state_of (exec op s)) →
  match op with
  | OpBroadcast _ => clients (state_of (exec op s)) = clients s
  | _ => True
  end →
  consistent (state_of (exec op s)) ∧
  GetClientCount (state_of (exec op s)) = indexedCount (state_of (exec op s)).
Proof.
  intros [Hs Hcount] Hinj Hquiet.
  split; [by apply exec_consistent|].
  assert (Hsame : ∀ s', clients s' = clients s → userClients s' = userClients s →
            GetClientCount s' = indexedCount s').
  { intros s' Hc Hu. unfold GetClientCount, indexedCount in *. by rewrite Hc, Hu. }
  destruct op; simpl in *.
  - unfold HandleWebSocket in *.
    destruct (generateClientID now) as [id|] eqn:Hid; [|done].
    fold (HandleWebSocket user_id now s) in Hinj.
    assert (Hinj' : ids_inj (state_of (HandleWebSocket user_id now s))).
    { unfold HandleWebSocket. by rewrite Hid. }
    destruct (HandleWebSocket_fresh_id user_id now s id (proj1 Hs) Hid Hinj')
      as [Hfree Hbucket].
    pose proof (HandleWebSocket_state user_id now s id Hid) as Hst.
    unfold HandleWebSocket in Hst. rewrite Hid in Hst. rewrite Hst. simpl.
    match goal with
    | |- GetClientCount (store _ _ (registered_maps ?p ?c ?s0)) = _ =>
      destruct (registered_maps_counts p c s0) as (H1 & H2 & _)
    end; [done|apply Hbucket|].
    unfold GetClientCount, indexedCount in *. simpl in *. lia.
  - assert (Hinj0 : ids_inj s)
      by (eapply ids_inj_mono; [apply unregisterClient_shrinks|done]).
    destruct (heap s !! p) as [c|] eqn:Hp;
      [|unfold unregisterClient; by rewrite Hp].
    destruct (clients s !! ID c) as [q|] eqn:Hq;
      [|by rewrite (unregisterClient_absent p s c)].
    destruct Hs as ((Hic & Hiu) & Hpi & Hip).
    assert (q = p) as ->.
    { destruct (Hic _ _ Hq) as (d & Hd & Hid). eapply Hinj0; eauto. }
    destruct (Hpi _ _ Hq) as (c0 & Hc0 & Hin).
    assert (c0 = c) as -> by congruence.
    apply in_userClients_Some in Hin as (uc & Huc & Hucp).
    destruct (unregisterClient_counts_entry p s c uc) as (H1 & H2 & _); eauto.
    lia.
  - apply Hsame; [done|apply broadcastMessage_userClients].
  - apply Hsame; apply SendToUser_only_heap.
  - apply Hsame; apply SendToDevice_only_heap.
  - apply Hsame; apply handleMessage_only_heap.
  - apply Hsame; apply writePumpStep_only_heap.
Qed.

Lemma no_evictionb_sound ops s :
  no_evictionb ops s = true → no_eviction ops s.
Proof.
  revert s. induction ops as [|op ops IH]; intros s; [done|].
  cbn [no_evictionb no_eviction]. intros [Hop Hrest]%andb_true_iff. split.
  - destruct op; try done. by apply bool_decide_eq_true in Hop.
  - destruct (exec op s); [by apply IH|done].
Qed.

(** Along any run in which all session ids are distinct and no broadcast
    deletes a session, [GetClientCount] is the sum of [GetUserClientCount]
    over the users of the index. *)
Theorem GetClientCount_is_sum ops s :
  state_of (run ops NewManager) = s →
  NoDup (ids s) →
  no_eviction ops NewManager →
  GetClientCount s = indexedCount s.
Proof.
  intros <- Hnd Hquiet. apply NoDup_ids_inj in Hnd.
  refine (proj2 (run_inv_guarded
            (λ s, consistent s ∧ GetClientCount s = indexedCount s)
            ops NewManager _ _ Hquiet Hnd)).
  - split; [apply NewManager_consistent|done].
  - intros op s0. apply exec_counts_agree.
Qed.

Lemma GetClientCount_is_sum_witness :
  GetClientCount calm_state = 2 ∧ indexedCount calm_state = 2.
Proof.
  split; [vm_compute; reflexivity|].
  rewrite <- (GetClientCount_is_sum calm_ops calm_state).
  - vm_compute; reflexivity.
  - vm_compute; reflexivity.
  - apply (bool_decide_unpack _). vm_compute. exact I.
  - apply no_evictionb_sound. vm_compute. reflexivity.
Defined.

(** On a state reached by such a run, unregistering a client that is in
    the primary map lowers [GetClientCount] and the [GetUserClientCount]
    of its user by one and leaves the count of every other user alone;
    unregistering a client that is not in the primary map changes
    nothing. *)
Theorem unregisterClient_counts ops s p c :
  state_of (run ops NewManager) = s →
  NoDup (ids s) →
  no_eviction ops NewManager →
  heap s !! p = Some c →
  (is_Some (clients s !! ID c) →
   S (GetClientCount (state_of (unregisterClient p s))) = GetClientCount s ∧
   S (GetUserClientCount (UserID c) (state_of (unregisterClient p s)))
   = GetUserClientCount (UserID c) s ∧
   ∀ u, u ≠ UserID c →
        GetUserClientCount u (state_of (unregisterClient p s))
        = GetUserClientCount u s) ∧
  (clients s !! ID c = None → unregisterClient p s = Ok s).
Proof.
  intros Hrun Hnd Hquiet Hp. apply NoDup_ids_inj in Hnd.
  assert (Hs : consistent s).
  { subst s. apply run_consistent; auto using NewManager_consistent. }
  split; [|by apply unregisterClient_absent].
  intros [q Hq]. destruct Hs as ((Hic & Hiu) & Hpi & Hip).
  assert (q = p) as ->.
  { destruct (Hic _ _ Hq) as (d & Hd & Hid). eapply Hnd; eauto. }
  destruct (Hpi _ _ Hq) as (c0 & Hc0 & Hin).
  assert (c0 = c) as -> by congruence.
  apply in_userClients_Some in Hin as (uc & Huc & Hucp).
  destruct (unregisterClient_counts_entry p s c uc) as (H1 & _ & H3 & H4); eauto.
Qed.

Lemma unregisterClient_counts_witness :
  GetClientCount demo_state = 3 ∧
  GetClientCount (state_of (unregisterClient 0 demo_state)) = 2.
Proof.
  split; [vm_compute; reflexivity|].
  destruct (unregisterClient_counts demo_ops demo_state 0
              (default (mkClient "" 0 ConnOpen (makeChan 0) ∅)
                       (heap demo_state !! 0))) as [Hreg _].
  - vm_compute; reflexivity.
  - apply (bool_decide_unpack _). vm_compute. exact I.
  - vm_compute. repeat split.
  - vm_compute; reflexivity.
  - destruct Hreg as (Hcount & _); [vm_compute; eauto|].
    apply (inj S). rewrite Hcount. vm_compute. reflexivity.
Defined.

(** ** What the reader does to its own session and to the others *)

Lemma sendOrDrop_open response p s c :
  heap s !! p = Some c → closed (Send c) = false →
  sendOrDrop response p s
  = Ok (if full (Send c) then s
        else store p (setSend {| buf := buf (Send c) ++ [response];
                                 cap := cap (Send c); closed := false |} c) s).
Proof.
  intros Hp Hopen. unfold sendOrDrop, trySend, full. rewrite Hp, Hopen.
  by destruct (length (buf (Send c)) <? cap (Send c))%nat.
Qed.

(** Handling a decoded frame never tears the session down: for a client
    with an open mailbox channel [handleMessage] returns, leaves both maps
    and every other client as they were, keeps the channel open and the
    messages already queued, and queues at most one more message, a
    notification or a heartbeat. *)
Theorem handleMessage_never_tears_down now p msg s c :
  heap s !! p = Some c → closed (Send c) = false →
  ∃ s' c', handleMessage now p msg s = Ok s' ∧
    clients s' = clients s ∧ userClients s' = userClients s ∧
    (∀ q, q ≠ p → heap s' !! q = heap s !! q) ∧
    heap s' !! p = Some c' ∧
    ID c' = ID c ∧ UserID c' = UserID c ∧ Conn c' = Conn c ∧
    closed (Send c') = false ∧ cap (Send c') = cap (Send c) ∧
    (buf (Send c') = buf (Send c) ∨
     ∃ reply, buf (Send c') = (buf (Send c) ++ [reply])%list ∧
              (Type_ reply = TypeNotification ∨ Type_ reply = TypeHeartbeat)).
Proof.
  intros Hp Hopen. unfold handleMessage, handleHeartbeat.
  destruct (String.eqb (Type_ msg) TypeSubscribe).
  { unfold handleSubscribe. destruct (deviceIDOf msg) as [d|].
    - rewrite Hp.
      set (c1 := setSubscriptions (<[d:=true]> (Subscriptions c)) c).
      rewrite (sendOrDrop_open _ p (store p c1 s) c1);
        [|simpl; by rewrite lookup_insert_eq|done].
      destruct (full (Send c1)); eexists _, _; (split; [reflexivity|]); simpl;
        rewrite ?lookup_insert_eq;
        (repeat split; try done;
         [intros q Hq; by rewrite ?lookup_insert_ne by done|]).
      + by left.
      + right. eexists. split; [reflexivity|]. by left.
    - exists s, c. repeat split; try done. by left. }
  destruct (String.eqb (Type_ msg) TypeUnsubscribe).
  { unfold handleUnsubscribe. destruct (deviceIDOf msg) as [d|].
    - rewrite Hp. eexists _, _. split; [reflexivity|]. simpl.
      rewrite lookup_insert_eq. repeat split; try done.
      + intros q Hq. by rewrite lookup_insert_ne.
      + by left.
    - exists s, c. repeat split; try done. by left. }
  destruct (String.eqb (Type_ msg) TypeHeartbeat).
  - rewrite (sendOrDrop_open _ p s c Hp Hopen).
    destruct (full (Send c)); eexists _, _; (split; [reflexivity|]); simpl;
      rewrite ?lookup_insert_eq;
      (repeat split; try done; try (intros q Hq; by rewrite ?lookup_insert_ne by done)).
    + by left.
    + right. eexists. split; [reflexivity|]. by right.
  - exists s, c. repeat split; try done. by left.
Qed.

Lemma handleMessage_never_tears_down_witness :
  ∃ s', handleMessage (demo_clock 50 0) 0 (subscribeFrame "dev-9") saturated
        = Ok s' ∧
        mailbox s' 0 = Some (256, false) ∧
        in_clients s' session0_id = Some 0.
Proof.
  destruct (handleMessage_never_tears_down (demo_clock 50 0) 0
              (subscribeFrame "dev-9") saturated
              (default (mkClient "" 0 ConnOpen (makeChan 0) ∅)
                       (heap saturated !! 0)))
    as (s' & c' & Hok & Hc & _ & _ & Hp & _ & _ & _ & Hopen & _ & _);
    [vm_compute; reflexivity..|].
  exists s'. split; [exact Hok|].
  vm_compute in Hok. injection Hok as <-. vm_compute. split; reflexivity.
Defined.

(** A subscribe frame with a string device id is recorded whether or not
    its acknowledgement fits: the device id is set in the subscription
    set, the other subscriptions are kept, and the acknowledgement is
    appended to the mailbox only when it is not full. *)
Theorem handleSubscribe_records now p msg s c T :
  heap s !! p = Some c → closed (Send c) = false →
  Type_ msg = TypeSubscribe → deviceIDOf msg = Some T →
  ∃ s' c', handleMessage now p msg s = Ok s' ∧
    heap s' !! p = Some c' ∧
    Subscriptions c' = <[T := true]> (Subscriptions c) ∧
    subscribed T c' = true ∧
    (∀ T', T' ≠ T → subscribed T' c' = subscribed T' c) ∧
    buf (Send c') = (if full (Send c) then buf (Send c)
                     else buf (Send c) ++ [subscribedMsg now T])%list.
Proof.
  intros Hp Hopen Hty Hdev. unfold handleMessage. rewrite Hty. simpl.
  unfold handleSubscribe. rewrite Hdev, Hp.
  set (c1 := setSubscriptions (<[T:=true]> (Subscriptions c)) c).
  rewrite (sendOrDrop_open _ p (store p c1 s) c1);
    [|simpl; by rewrite lookup_insert_eq|done].
  assert (Hsub : subscribed T c1 = true)
    by (unfold subscribed; simpl; by rewrite lookup_insert_eq).
  assert (Hoth : ∀ T', T' ≠ T → subscribed T' c1 = subscribed T' c)
    by (intros T' Hne; unfold subscribed; simpl; by rewrite lookup_insert_ne).
  change (full (Send c1)) with (full (Send c)).
  destruct (full (Send c)); eexists _, _; (split; [reflexivity|]); simpl;
    rewrite ?lookup_insert_eq; by repeat split.
Qed.

Lemma handleSubscribe_records_witness :
  ∃ s', handleMessage (demo_clock 50 0) 0 (subscribeFrame "dev-9") saturated
        = Ok s' ∧
        subscribed "dev-9" <$> heap s' !! 0 = Some true.
Proof.
  destruct (handleSubscribe_records (demo_clock 50 0) 0
              (subscribeFrame "dev-9") saturated
              (default (mkClient "" 0 ConnOpen (makeChan 0) ∅)
                       (heap saturated !! 0)) "dev-9")
    as (s' & c' & Hok & Hp & _ & Hsub & _); [vm_compute; reflexivity..|].
  exists s'. split; [exact Hok|]. rewrite Hp. simpl. by rewrite Hsub.
Defined.

Lemma setSubscriptions_same c : setSubscriptions (Subscriptions c) c = c.
Proof. by destruct c. Qed.

Lemma store_same s p c : heap s !! p = Some c → store p c s = s.
Proof.
  intros Hp. destruct s as [h cl us]. unfold store. simpl in *.
  by rewrite insert_id.
Qed.

(** An unsubscribe frame with a string device id removes that id from
    the subscription set and nothing else, and sends nothing; it works on
    a closed mailbox channel too, and for a device the client is not
    subscribed to it leaves the whole state as it was. *)
Theorem handleUnsubscribe_effect now p msg s c T :
  heap s !! p = Some c →
  Type_ msg = TypeUnsubscribe → deviceIDOf msg = Some T →
  handleMessage now p msg s
  = Ok (store p (setSubscriptions (delete T (Subscriptions c)) c) s) ∧
  subscribed T (setSubscriptions (delete T (Subscriptions c)) c) = false ∧
  (∀ T', T' ≠ T →
     subscribed T' (setSubscriptions (delete T (Subscriptions c)) c)
     = subscribed T' c) ∧
  (Subscriptions c !! T = None → handleMessage now p msg s = Ok s).
Proof.
  intros Hp Hty Hdev.
  assert (Hok : handleMessage now p msg s
            = Ok (store p (setSubscriptions (delete T (Subscriptions c)) c) s)).
  { unfold handleMessage. rewrite Hty. simpl.
    unfold handleUnsubscribe. by rewrite Hdev, Hp. }
  split; [done|]. split; [|split].
  - unfold subscribed. simpl. by rewrite lookup_delete_eq.
  - intros T' Hne. unfold subscribed. simpl. by rewrite lookup_delete_ne.
  - intros Habsent. rewrite Hok, delete_id by done.
    by rewrite setSubscriptions_same, store_same.
Qed.

Lemma handleUnsubscribe_effect_witness :
  handleMessage (demo_clock 50 0) 0 (unsubscribeFrame "dev-9") demo_state
  = Ok demo_state.
Proof.
  destruct (handleUnsubscribe_effect (demo_clock 50 0) 0
              (unsubscribeFrame "dev-9") demo_state
              (default (mkClient "" 0 ConnOpen (makeChan 0) ∅)
                       (heap demo_state !! 0)) "dev-9")
    as (_ & _ & _ & Hnoop); [vm_compute; reflexivity..|].
  apply Hnoop. vm_compute. reflexivity.
Defined.

(** Subscribing and then publishing: on a state the manager can reach, a
    registered client with an open channel and room for two messages that
    subscribes to a device receives the acknowledgement and then the next
    message sent to that device, in that order, provided no other
    subscriber of the device has a closed channel. *)
Theorem subscribe_then_deliver ops s now p c msg T message :
  state_of (run ops NewManager) = s →
  heap s !! p = Some c → registered s p c = true →
  closed (Send c) = false → (length (buf (Send c)) + 2 ≤ cap (Send c))%nat →
  Type_ msg = TypeSubscribe → deviceIDOf msg = Some T →
  subscribers_open T (state_of (handleMessage now p msg s)) = true →
  ∃ s1 s2 c2, handleMessage now p msg s = Ok s1 ∧
    SendToDevice T message s1 = Ok s2 ∧
    heap s2 !! p = Some c2 ∧
    buf (Send c2) = (buf (Send c) ++ [subscribedMsg now T; message])%list ∧
    closed (Send c2) = false.
Proof.
  intros Hrun Hp Hreg Hopen Hroom Hty Hdev Hsubs.
  assert (Hs : indexed s) by (subst s; apply run_indexed, NewManager_indexed).
  assert (Hs1 : indexed (state_of (handleMessage now p msg s)))
    by (eapply shrinks_indexed; [apply handleMessage_shrinks|done]).
  assert (Hmaps : clients (state_of (handleMessage now p msg s)) = clients s)
    by apply handleMessage_only_heap.
  revert Hsubs Hs1 Hmaps. unfold handleMessage. rewrite Hty. simpl.
  unfold handleSubscribe. rewrite Hdev, Hp.
  set (c1 := setSubscriptions (<[T:=true]> (Subscriptions c)) c).
  rewrite (sendOrDrop_open _ p (store p c1 s) c1);
    [|simpl; by rewrite lookup_insert_eq|done].
  assert (Hnotfull : full (Send c1) = false).
  { unfold full. simpl. apply negb_false_iff, Nat.ltb_lt. lia. }
  rewrite Hnotfull. simpl.
  set (c1' := setSend _ c1). set (s1 := store p c1' _).
  intros Hsubs Hs1 Hmaps.
  destruct (SendToDevice_indexed s1 T message Hs1 Hsubs)
    as (s2 & Hok & _ & _ & Hh).
  exists s1, s2. eexists. split; [done|]. split; [exact Hok|].
  rewrite Hh. subst s1. simpl. rewrite !lookup_insert_eq. simpl.
  assert (Hreg1 : registered (store p c1' (store p c1 s)) p c1' = true).
  { unfold registered in *. simpl. exact Hreg. }
  assert (Hsub1 : subscribed T c1' = true)
    by (unfold subscribed; simpl; by rewrite lookup_insert_eq).
  fold (store p c1 s). fold (store p c1' (store p c1 s)).
  rewrite Hreg1, Hsub1. simpl. split; [reflexivity|].
  assert (Hlt : (length (buf (Send c) ++ [subscribedMsg now T]) <? cap (Send c))%nat
                = true).
  { apply Nat.ltb_lt. rewrite length_app. simpl. lia. }
  unfold attempt, trySend. simpl. rewrite Hlt. simpl.
  split; [|done]. by rewrite <- app_assoc.
Qed.

Lemma subscribe_then_deliver_witness :
  ∃ s1 s2, handleMessage (demo_clock 50 0) 1 (subscribeFrame "dev-1") demo_state
           = Ok s1 ∧
    SendToDevice "dev-1" telemetry s1 = Ok s2 ∧
    (λ c, buf (Send c)) <$> heap s2 !! 1
    = Some [welcomeMsg (demo_clock 2 9);
            subscribedMsg (demo_clock 50 0) "dev-1"; telemetry].
Proof.
  destruct (subscribe_then_deliver demo_ops demo_state (demo_clock 50 0) 1
              (default (mkClient "" 0 ConnOpen (makeChan 0) ∅)
                       (heap demo_state !! 1))
              (subscribeFrame "dev-1") "dev-1" telemetry)
    as (s1 & s2 & c2 & H1 & H2 & Hp & Hbuf & _);
    [first [vm_compute; reflexivity|vm_compute; lia]..|].
  exists s1, s2. split; [exact H1|]. split; [exact H2|].
  rewrite Hp. simpl. rewrite Hbuf. vm_compute. reflexivity.
Defined.

(** The reader handles nothing after the first read error: the frames
    that follow it have no effect. *)
Theorem readPump_stops_at_error pre now err post p s :
  readPump (pre ++ (now, ReadErr err) :: post) p s
  = readPump (pre ++ [(now, ReadErr err)]) p s.
Proof.
  revert s. induction pre as [|[t [msg|e]] pre IH]; intros s; simpl; [done| |done].
  destruct (handleMessage t p msg s); simpl; [apply IH|done].
Qed.

(** The exit of the reader of a session that is not in the primary map
    any more (evicted by a broadcast, or unregistered before) only closes
    the connection: both maps and the mailbox channel are left alone, and
    nothing panics even when the channel is already closed. *)
Theorem readPumpExit_unregistered reads now err p s c :
  heap s !! p = Some c → clients s !! ID c = None →
  readPump ((now, ReadErr err) :: reads) p s
  = Ok (store p (setConn ConnClosed c) s).
Proof.
  intros Hp Hq. cbn [readPump]. unfold readPumpExit.
  rewrite (unregisterClient_absent p s c Hp Hq). cbn [andThen].
  unfold closeConn. by rewrite Hp.
Qed.

Lemma readPumpExit_unregistered_witness :
  ∃ s1 s2, broadcastMessage notice saturated = Ok s1 ∧
    readPump [(demo_clock 50 0, ReadErr UnexpectedClose)] 0 s1 = Ok s2 ∧
    mailbox s2 0 = Some (256, true) ∧
    in_userClients s2 7 session0_id = Some 0.
Proof.
  pose (s1 := state_of (broadcastMessage notice saturated)).
  pose (c0 := default (mkClient "" 0 ConnOpen (makeChan 0) ∅) (heap s1 !! 0)).
  exists s1, (store 0 (setConn ConnClosed c0) s1).
  split; [vm_compute; reflexivity|]. split.
  - apply (readPumpExit_unregistered [] (demo_clock 50 0) UnexpectedClose 0 s1 c0);
      vm_compute; reflexivity.
  - split; vm_compute; reflexivity.
Defined.

Lemma unregisterClient_twice_witness :
  ∃ s1, unregisterClient 1 demo_state = Ok s1 ∧ unregisterClient 1 s1 = Ok s1.
Proof.
  eexists. split; [vm_compute; reflexivity|].
  apply (unregisterClient_twice 1 demo_state). vm_compute. reflexivity.
Defined.

(** ** The writer loop *)

Lemma dequeued_0 c : dequeued 0 c = c.
Proof. unfold dequeued. rewrite drop_0. by destruct c as [? ? ? [? ? ?] ?]. Qed.

Lemma writePumpStep_pop p s c message rest :
  heap s !! p = Some c → buf (Send c) = message :: rest →
  writePumpStep true p s = Ok (store p (dequeued 1 c) s).
Proof.
  intros Hp Hbuf. unfold writePumpStep, dequeued. rewrite Hp, Hbuf. done.
Qed.

Lemma writePump_cons_pop events p s c message rest :
  heap s !! p = Some c → buf (Send c) = message :: rest →
  writePump (MailboxReady true :: events) p s
  = ((writePump events p (store p (dequeued 1 c) s)).1,
     TextJSON message :: (writePump events p (store p (dequeued 1 c) s)).2).
Proof.
  intros Hp Hbuf. cbn [writePump]. rewrite Hp, Hbuf.
  by rewrite (writePumpStep_pop p s c message rest Hp Hbuf).
Qed.

Lemma store_store p c c' s : store p c' (store p c s) = store p c' s.
Proof. unfold store. simpl. by rewrite insert_insert_eq. Qed.

Lemma dequeued_dequeued n m c : dequeued n (dequeued m c) = dequeued (m + n) c.
Proof. unfold dequeued. simpl. by rewrite drop_drop. Qed.

Lemma writePump_drains n p s c :
  heap s !! p = Some c → (n ≤ length (buf (Send c)))%nat →
  writePump (repeat (MailboxReady true) n) p s
  = (Ok (store p (dequeued n c) s), TextJSON <$> take n (buf (Send c))).
Proof.
  revert s c. induction n as [|n IH]; intros s c Hp Hn.
  - simpl. by rewrite dequeued_0, store_same.
  - destruct (buf (Send c)) as [|message rest] eqn:Hbuf; [simpl in Hn; lia|].
    cbn [repeat]. rewrite (writePump_cons_pop _ p s c message rest Hp Hbuf).
    rewrite (IH (store p (dequeued 1 c) s) (dequeued 1 c)).
    + simpl. rewrite store_store, dequeued_dequeued, Hbuf. simpl.
      by rewrite drop_0.
    + simpl. by rewrite lookup_insert_eq.
    + unfold dequeued. simpl. rewrite Hbuf. simpl. rewrite drop_0.
      simpl in Hn. lia.
Qed.

(** The writer puts the messages of the mailbox on the wire in the order
    in which they were queued: [n] successful turns of the mailbox case
    write the [n] oldest messages, oldest first, and leave the rest queued
    in order; nothing else about the session changes. *)
Theorem writePump_fifo n p s c :
  heap s !! p = Some c → (n ≤ length (buf (Send c)))%nat →
  writePump (repeat (MailboxReady true) n) p s
  = (Ok (store p (setSend {| buf := drop n (buf (Send c));
                            cap := cap (Send c);
                            closed := closed (Send c) |} c) s),
     TextJSON <$> take n (buf (Send c))).
Proof. apply writePump_drains. Qed.

Lemma writePump_fifo_witness :
  (writePump (repeat (MailboxReady true) 2) 0 demo_state).2
  = [TextJSON (welcomeMsg (demo_clock 1 9));
     TextJSON (subscribedMsg (demo_clock 4 0) "dev-1")].
Proof.
  rewrite (writePump_fifo 2 0 demo_state
             (default (mkClient "" 0 ConnOpen (makeChan 0) ∅)
                      (heap demo_state !! 0))).
  - vm_compute; reflexivity.
  - vm_compute; reflexivity.
  - vm_compute; lia.
Defined.

(** When the mailbox channel has been closed, the writer still writes
    every message left in the mailbox, then the close frame, and only
    then ends and closes the connection; it does not unregister the
    session, and events after the end are not served. *)
Theorem writePump_drains_then_closes more p s c :
  heap s !! p = Some c → closed (Send c) = true →
  writePump (repeat (MailboxReady true) (S (length (buf (Send c)))) ++ more)%list p s
  = (Ok (store p (setConn ConnClosed
                    (setSend {| buf := []; cap := cap (Send c); closed := true |} c))
               s),
     ((TextJSON <$> buf (Send c)) ++ [CloseMessage])%list).
Proof.
  revert s c. 
  assert (Hgen : ∀ l s c, heap s !! p = Some c → closed (Send c) = true →
            buf (Send c) = l →
            writePump (repeat (MailboxReady true) (S (length l)) ++ more)%list p s
            = (Ok (store p (setConn ConnClosed
                     (setSend {| buf := []; cap := cap (Send c); closed := true |} c))
                     s),
               ((TextJSON <$> l) ++ [CloseMessage])%list)).
  { induction l as [|message rest IH]; intros s c Hp Hclosed Hbuf.
    - cbn [length repeat app writePump]. rewrite Hp, Hbuf, Hclosed.
      unfold writePumpStep. rewrite Hp, Hbuf, Hclosed. simpl.
      do 3 f_equal. destruct c as [? ? ? [? ? ?] ?]. simpl in *. by subst.
    - change (repeat (MailboxReady true) (S (length (message :: rest))) ++ more)%list
        with (MailboxReady true
              :: (repeat (MailboxReady true) (S (length rest)) ++ more))%list.
      rewrite (writePump_cons_pop _ p s c message rest Hp Hbuf).
      rewrite (IH (store p (dequeued 1 c) s) (dequeued 1 c)).
      + simpl. by rewrite store_store.
      + simpl. by rewrite lookup_insert_eq.
      + done.
      + unfold dequeued. simpl. rewrite Hbuf. simpl. by rewrite drop_0. }
  intros s c Hp Hclosed. by apply Hgen.
Qed.

Lemma writePump_drains_then_closes_witness :
  ∃ s2, SendToUser 7 notice saturated = Ok s2 ∧
    length (writePump (repeat (MailboxReady true) 257
                       ++ [MailboxReady true; TickerFired true])%list 0 s2).2
    = 257 ∧
    in_clients (state_of (writePump (repeat (MailboxReady true) 257
                       ++ [MailboxReady true; TickerFired true])%list 0 s2).1)
               session0_id = Some 0.
Proof.
  pose (s2 := state_of (SendToUser 7 notice saturated)).
  pose (c0 := default (mkClient "" 0 ConnOpen (makeChan 0) ∅) (heap s2 !! 0)).
  exists s2. split; [vm_compute; reflexivity|].
  change 257 with (S (length (buf (Send c0)))).
  rewrite (writePump_drains_then_closes [MailboxReady true; TickerFired true]
             0 s2 c0); [|vm_compute; reflexivity..].
  split; vm_compute; reflexivity.
Defined.

Lemma writePump_keeps_maps events p s :
  clients (state_of (writePump events p s).1) = clients s ∧
  userClients (state_of (writePump events p s).1) = userClients s ∧
  ∀ q, q ≠ p → heap (state_of (writePump events p s).1) !! q = heap s !! q.
Proof.
  revert s. induction events as [|[writeOk|pingOk] events IH]; intros s.
  - done.
  - cbn [writePump]. destruct (heap s !! p) as [c|] eqn:Hp; [|done].
    destruct (buf (Send c)) as [|message rest] eqn:Hbuf.
    + destruct (closed (Send c)) eqn:Hcl; [|apply IH].
      unfold writePumpStep. rewrite Hp, Hbuf, Hcl. simpl.
      repeat split; try done. intros q Hq. by rewrite lookup_insert_ne.
    + destruct writeOk.
      * rewrite (writePumpStep_pop p s c message rest Hp Hbuf). cbn [state_of fst].
        destruct (IH (store p (dequeued 1 c) s)) as (H1 & H2 & H3).
        repeat split; try done. intros q Hq. rewrite H3 by done.
        simpl. by rewrite lookup_insert_ne.
      * unfold writePumpStep. rewrite Hp, Hbuf. simpl.
        repeat split; try done. intros q Hq. by rewrite lookup_insert_ne.
  - cbn [writePump]. destruct pingOk; [apply IH|].
    unfold closeConn. destruct (heap s !! p) as [c|] eqn:Hp; [|done]. simpl.
    repeat split; try done. intros q Hq. by rewrite lookup_insert_ne.
Qed.

(** The writer never unregisters and never touches another session:
    whatever cases fire and whichever writes fail, both maps and every
    other client are as before and the mailbox channel of its own session
    is not closed by it; a failed [WriteJSON] or ping ends the loop with the
    connection closed and the session still registered. *)
Theorem writePump_leaves_registry events p s c :
  heap s !! p = Some c →
  clients (state_of (writePump events p s).1) = clients s ∧
  userClients (state_of (writePump events p s).1) = userClients s ∧
  (∀ q, q ≠ p → heap (state_of (writePump events p s).1) !! q = heap s !! q) ∧
  (∃ c', heap (state_of (writePump events p s).1) !! p = Some c' ∧
         closed (Send c') = closed (Send c) ∧ ID c' = ID c ∧
         UserID c' = UserID c ∧ Subscriptions c' = Subscriptions c).
Proof.
  intros Hp. destruct (writePump_keeps_maps events p s) as (H1 & H2 & H3).
  repeat split; try done. clear H1 H2 H3.
  revert s c Hp. induction events as [|[writeOk|pingOk] events IH]; intros s c Hp.
  - exists c. by repeat split.
  - cbn [writePump]. rewrite Hp.
    destruct (buf (Send c)) as [|message rest] eqn:Hbuf.
    + destruct (closed (Send c)) eqn:Hcl; [|rewrite <- Hcl; by apply IH].
      unfold writePumpStep. rewrite Hp, Hbuf, Hcl. simpl.
      rewrite lookup_insert_eq. eexists. by repeat split.
    + destruct writeOk.
      * rewrite (writePumpStep_pop p s c message rest Hp Hbuf). cbn [state_of fst].
        destruct (IH (store p (dequeued 1 c) s) (dequeued 1 c))
          as (c' & H1 & H2 & H3 & H4 & H5); [simpl; by rewrite lookup_insert_eq|].
        exists c'. by repeat split.
      * unfold writePumpStep. rewrite Hp, Hbuf. simpl.
        rewrite lookup_insert_eq. eexists. by repeat split.
  - cbn [writePump]. destruct pingOk; [by apply IH|].
    unfold closeConn. rewrite Hp. simpl. rewrite lookup_insert_eq.
    eexists. by repeat split.
Qed.

Lemma writePump_leaves_registry_witness :
  in_clients (state_of (writePump [MailboxReady true; MailboxReady false;
                                   TickerFired true] 0 demo_state).1)
             session0_id = Some 0 ∧
  Conn <$> heap (state_of (writePump [MailboxReady true; MailboxReady false;
                                      TickerFired true] 0 demo_state).1) !! 0
  = Some ConnClosed.
Proof.
  destruct (writePump_leaves_registry
              [MailboxReady true; MailboxReady false; TickerFired true]
              0 demo_state
              (default (mkClient "" 0 ConnOpen (makeChan 0) ∅)
                       (heap demo_state !! 0)))
    as (Hc & _); [vm_compute; reflexivity|].
  split; [|vm_compute; reflexivity].
  unfold in_clients. rewrite Hc. vm_compute. reflexivity.
Defined.

(** ** The shape of a session id *)

Lemma charsetAt_None x :
  (-62 < x < 62)%Z → charsetAt x = None ↔ (x < 0)%Z.
Proof.
  intros Hx. unfold charsetAt. destruct (Z.ltb_spec x 0) as [Hneg|Hpos].
  - tauto.
  - split; [|lia]. intros Hnone. rewrite get_lookup in Hnone.
    apply lookup_ge_None in Hnone.
    change (length (list_ascii_of_string charset)) with 62%nat in Hnone. lia.
Qed.

Lemma rem_62_bound n : (-62 < Z.rem n 62 < 62)%Z.
Proof.
  pose proof (Z.rem_bound_abs n 62 ltac:(lia)). lia.
Qed.

Lemma randomBytes_None now i n :
  randomBytes now i n = None ↔
  ∃ k, (k < n)%nat ∧ (Z.rem (unixNano (now (i + k)%nat)) 62 < 0)%Z.
Proof.
  revert i. induction n as [|n IH]; intros i.
  - simpl. split; [done|]. intros (k & Hk & _). lia.
  - cbn [randomBytes]. change (Z.of_nat (String.length charset)) with 62%Z.
    destruct (charsetAt (Z.rem (unixNano (now i)) 62)) as [b|] eqn:Hb.
    + assert (Hb' : ¬ (Z.rem (unixNano (now i)) 62 < 0)%Z).
      { intros Hneg. apply (charsetAt_None _ (rem_62_bound _)) in Hneg. congruence. }
      destruct (randomBytes now (S i) n) as [bs|] eqn:Hbs.
      * split; [done|]. intros (k & Hk & Hneg). destruct k as [|k].
        -- by rewrite Nat.add_0_r in Hneg.
        -- assert (Hnone : randomBytes now (S i) n = None); [|congruence].
           apply IH. exists k. split; [lia|].
           by replace (S i + k)%nat with (i + S k)%nat by lia.
      * split; [|done]. intros _. apply IH in Hbs as (k & Hk & Hneg).
        exists (S k). split; [lia|].
        by replace (i + S k)%nat with (S i + k)%nat by lia.
    + split; [|done]. intros _. exists 0%nat. split; [lia|].
      rewrite Nat.add_0_r. by apply (charsetAt_None _ (rem_62_bound _)).
Qed.

(** [generateClientID] panics (index out of range) exactly when one of
    the eight clock readings taken by [generateRandomString] has a negative
    remainder modulo 62, which needs a clock before 1970; otherwise the
    id is the formatted time, a dash, and eight characters that all come
    from the 62-letter charset. *)
Theorem generateClientID_shape now :
  (generateClientID now = None ↔
   ∃ i, (1 ≤ i ≤ 8)%nat ∧ (Z.rem (unixNano (now i)) 62 < 0)%Z) ∧
  (∀ id, generateClientID now = Some id →
     ∃ suffix, id = Format (now 0) +:+ "-" +:+ suffix ∧
       String.length suffix = 8 ∧
       ∀ ch, ch ∈ list_ascii_of_string suffix →
             ch ∈ list_ascii_of_string charset).
Proof.
  split.
  - unfold generateClientID, generateRandomString.
    destruct (randomBytes (λ i, now (S i)) 0 8) as [bs|] eqn:Hbs; simpl.
    + split; [done|]. intros (i & Hi & Hneg).
      assert (Hnone : randomBytes (λ i, now (S i)) 0 8 = None); [|congruence].
      apply randomBytes_None. destruct i as [|k]; [lia|].
      exists k. split; [lia|done].
    + split; [|done]. intros _. apply randomBytes_None in Hbs as (k & Hk & Hneg).
      exists (S k). split; [lia|done].
  - intros id Hid. apply generateClientID_Some in Hid as (bs & Hbs & ->).
    exists (string_of_list_ascii bs). split; [done|]. split.
    + rewrite string_of_list_ascii_length.
      by apply (randomBytes_length _ _ _ _ Hbs).
    + intros ch. rewrite list_ascii_of_string_of_list_ascii.
      intros (k & Hk)%list_elem_of_lookup.
      assert (Hlt : (k < 8)%nat).
      { rewrite <- (randomBytes_length _ _ _ _ Hbs). by eapply lookup_lt_Some. }
      rewrite (randomBytes_lookup _ _ _ _ k Hbs Hlt) in Hk.
      unfold charsetAt in Hk. destruct (_ <? 0)%Z; [done|].
      rewrite get_lookup in Hk. by eapply list_elem_of_lookup_2.
Qed.

Lemma list_ascii_of_string_length (s : string) :
  length (list_ascii_of_string s) = String.length s.
Proof. induction s; simpl; auto. Qed.

Lemma appendInt_width (width : nat) (bound : Z) :
  forallb (λ k, (String.length (appendInt (Z.of_nat k) width) =? width)%nat)
          (seq 0 (Z.to_nat bound)) = true →
  ∀ x, (0 ≤ x < bound)%Z → String.length (appendInt x width) = width.
Proof.
  intros Hall x Hx. rewrite forallb_forall in Hall.
  specialize (Hall (Z.to_nat x)). rewrite Z2Nat.id in Hall by lia.
  apply Nat.eqb_eq, Hall, in_seq. lia.
Qed.

(** For a clock whose civil fields are in their ranges (year 0 to 9999)
    the formatted time has 14 characters, so every session id has 23,
    with the dash at position 14. *)
Theorem generateClientID_length (now : nat → Time) id :
  (0 ≤ year (now O) ≤ 9999)%Z →
  (month (now O) ≤ 12)%N → (day (now O) ≤ 31)%N → (hour (now O) ≤ 23)%N →
  (minute (now O) ≤ 59)%N → (second (now O) ≤ 60)%N →
  generateClientID now = Some id →
  String.length (Format (now 0)) = 14 ∧ String.length id = 23 ∧
  String.get 14 id = Some "-"%char.
Proof.
  intros Hy Hmo Hd Hh Hmi Hs Hid.
  assert (H4 : ∀ x, (0 ≤ x < 10000)%Z → String.length (appendInt x 4) = 4)
    by (apply appendInt_width; vm_compute; reflexivity).
  assert (H2 : ∀ x, (0 ≤ x < 100)%Z → String.length (appendInt x 2) = 2)
    by (apply appendInt_width; vm_compute; reflexivity).
  assert (HF : String.length (Format (now 0)) = 14).
  { unfold Format. rewrite !append_length.
    rewrite H4 by lia. rewrite !H2 by lia. done. }
  apply generateClientID_Some in Hid as (bs & Hbs & ->).
  split; [done|]. split.
  - rewrite !append_length, HF, string_of_list_ascii_length.
    by rewrite (randomBytes_length _ _ _ _ Hbs).
  - rewrite get_lookup.
    assert (Hlist : ∀ a b, list_ascii_of_string (a +:+ b)
              = (list_ascii_of_string a ++ list_ascii_of_string b)%list).
    { intros a b. induction a as [|ch a IH]; [done|].
      rewrite append_cons. simpl. by rewrite IH. }
    rewrite Hlist, lookup_app_r; rewrite list_ascii_of_string_length, HF; [|lia].
    done.
Qed.

Lemma generateClientID_length_witness :
  String.length "20240517090301-fQr2DePq" = 23.
Proof.
  destruct (generateClientID_length (demo_clock 1) "20240517090301-fQr2DePq")
    as (_ & Hlen & _);
    [first [vm_compute; reflexivity|vm_compute; discriminate
           |vm_compute; split; discriminate]..|].
  exact Hlen.
Defined.

(** ** From the request to the session's user id *)

Lemma stripPrefix_app prefix rest :
  middleware.stripPrefix prefix (prefix +:+ rest) = Some rest.
Proof.
  induction prefix as [|a prefix IH]; [done|].
  rewrite append_cons. simpl. by rewrite Ascii.eqb_refl.
Qed.

Lemma stripPrefix_Some prefix s rest :
  middleware.stripPrefix prefix s = Some rest → s = prefix +:+ rest.
Proof.
  revert s. induction prefix as [|a prefix IH]; intros s; simpl.
  - by intros [= ->].
  - destruct s as [|b s]; [done|].
    destruct (Ascii.eqb_spec a b) as [->|]; [|done].
    intros Hs. rewrite append_cons. f_equal. by apply IH.
Qed.

Lemma eqb_empty (s : string) : String.eqb s "" = true ↔ s = "".
Proof. apply String.eqb_eq. Qed.

(** An [Authorization] header that starts with ["Bearer "] decides the
    token alone: the token is what follows the prefix, also when that is
    empty, and the query parameter and the cookie are not looked at. *)
Theorem extractToken_bearer r rest :
  middleware.Authorization r = "Bearer " +:+ rest →
  middleware.extractToken r = rest.
Proof.
  intros Hauth. unfold middleware.extractToken, middleware.HasPrefix,
    middleware.TrimPrefix.
  rewrite Hauth, stripPrefix_app. simpl. done.
Qed.

Lemma extractToken_bearer_witness :
  middleware.extractToken
    (middleware.mkRequest "Bearer " "good" (Some "good")) = "".
Proof.
  apply (extractToken_bearer (middleware.mkRequest "Bearer " "good" (Some "good")) "").
  reflexivity.
Defined.

(** [extractToken] yields the empty token exactly when the header is the
    bare prefix ["Bearer "], or when the header does not start with that
    prefix and both the query parameter and the cookie are missing or
    empty. *)
Theorem extractToken_empty_iff r :
  middleware.extractToken r = "" ↔
  middleware.Authorization r = "Bearer " ∨
  (middleware.stripPrefix "Bearer " (middleware.Authorization r) = None ∧
   middleware.tokenQuery r = "" ∧
   (middleware.accessTokenCookie r = None ∨
    middleware.accessTokenCookie r = Some "")).
Proof.
  unfold middleware.extractToken, middleware.HasPrefix, middleware.TrimPrefix.
  destruct (middleware.stripPrefix "Bearer " (middleware.Authorization r))
    as [rest|] eqn:Hstrip.
  - apply stripPrefix_Some in Hstrip. rewrite Hstrip.
    change (String.eqb ("Bearer " +:+ rest) "") with false. simpl. split.
    + intros ->. by left.
    + intros [Heq|[? _]]; [|done].
      change "Bearer " with ("Bearer " +:+ "") in Heq at 2.
      by apply append_inj_suffix in Heq as [_ ->]; [|
        revert Heq; clear; intros Heq; apply (f_equal String.length) in Heq;
        rewrite !append_length in Heq; simpl in *; lia ].
  - rewrite andb_false_r.
    destruct (String.eqb_spec (middleware.tokenQuery r) "") as [Hq|Hq]; simpl.
    + destruct (middleware.accessTokenCookie r) as [cookie|].
      * destruct (String.eqb_spec cookie "") as [->|Hc]; simpl.
        -- split; [|done]. intros _. right. repeat split; auto.
        -- split; [done|]. intros [Hb|(_ & _ & [?|[= ?]])]; try done.
           by rewrite Hb in Hstrip.
      * split; [|done]. intros _. right. repeat split; auto.
    + split; [done|]. intros [Hb|(_ & ? & _)]; [|done].
      by rewrite Hb in Hstrip.
Qed.

Lemma contextUserID_setClaims claims keys :
  contextUserID (middleware.setClaims claims keys)
  = Some (middleware.UserID claims).
Proof.
  unfold contextUserID, middleware.setClaims.
  rewrite !lookup_insert_ne by done. by rewrite lookup_insert_eq.
Qed.

(** The session registered for a request to the WebSocket route is never
    refused for its credentials: when no earlier middleware has set
    ["user_id"], the route returns, and the new client carries the user
    id of the claims if the request has a token that parses, and user id
    0, the anonymous user, if it has no token or one that does not
    parse. *)
Theorem wsRoute_identity ParseToken r keys now s id :
  keys !! "user_id" = None →
  generateClientID now = Some id →
  ∃ s' c, wsRoute ParseToken r keys now s = Ok s' ∧
    heap s' !! fresh (dom (heap s)) = Some c ∧ ID c = id ∧
    clients s' !! id = Some (fresh (dom (heap s))) ∧
    UserID c = match ParseToken (middleware.extractToken r) with
               | Some claims =>
                 if String.eqb (middleware.extractToken r) "" then anonymous
                 else middleware.UserID claims
               | None => anonymous
               end.
Proof.
  intros Hkeys Hid. unfold wsRoute.
  rewrite (HandleWebSocket_state _ now s id Hid).
  eexists _, _. split; [reflexivity|]. simpl. rewrite !lookup_insert_eq.
  split; [reflexivity|]. split; [done|]. split; [done|]. simpl.
  unfold middleware.OptionalAuth.
  assert (Hanon : getUserIDFromContext (contextUserID keys) = anonymous)
    by (unfold contextUserID; by rewrite Hkeys).
  destruct (String.eqb (middleware.extractToken r) ""); simpl.
  - rewrite Hanon. by destruct (ParseToken _).
  - destruct (ParseToken _) as [claims|]; [|done].
    by rewrite contextUserID_setClaims.
Qed.

Lemma wsRoute_identity_witness :
  ∃ s' c, wsRoute demo_parser
            (middleware.mkRequest "Basic abc" "expired" None)
            ∅ (demo_clock 6) demo_state = Ok s' ∧
    heap s' !! 3 = Some c ∧ UserID c = anonymous.
Proof.
  destruct (wsRoute_identity demo_parser
              (middleware.mkRequest "Basic abc" "expired" None)
              ∅ (demo_clock 6) demo_state "20240517090306-x8JkVw7I")
    as (s' & c & Hok & Hc & _ & _ & Hu); [vm_compute; reflexivity..|].
  exists s', c. split; [exact Hok|]. split; [exact Hc|]. exact Hu.
Defined.

(** [AuthRequired] lets a request through exactly when it carries a
    non-empty token that parses, and otherwise aborts it with status 401;
    on a request it lets through, ["user_id"] holds the user id of the
    claims as a [uint], so that [GetUserID] does not panic and returns
    it. *)
Theorem AuthRequired_sets_user ParseToken r keys :
  (∀ keys', middleware.AuthRequired ParseToken r keys = middleware.Next keys' →
     ∃ claims, middleware.extractToken r ≠ "" ∧
       ParseToken (middleware.extractToken r) = Some claims ∧
       middleware.GetUserID keys' = Some (middleware.UserID claims) ∧
       contextUserID keys' = Some (middleware.UserID claims)) ∧
  (∀ status why,
     middleware.AuthRequired ParseToken r keys = middleware.Abort status why →
     status = 401 ∧
     (middleware.extractToken r = "" ∨
      ParseToken (middleware.extractToken r) = None)) ∧
  (∀ claims, middleware.extractToken r ≠ "" →
     ParseToken (middleware.extractToken r) = Some claims →
     middleware.AuthRequired ParseToken r keys
     = middleware.Next (middleware.setClaims claims keys)).
Proof.
  unfold middleware.AuthRequired.
  destruct (String.eqb_spec (middleware.extractToken r) "") as [Hempty|Hne].
  - split; [done|]. split; [|done]. intros status why [= <- _]. auto.
  - destruct (ParseToken (middleware.extractToken r)) as [claims|] eqn:Hparse.
    + split; [|split; [done|]].
      * intros keys' [= <-]. exists claims. repeat split; try done.
        -- unfold middleware.GetUserID, middleware.setClaims.
           rewrite !lookup_insert_ne by done. by rewrite lookup_insert_eq.
        -- apply contextUserID_setClaims.
      * by intros claims' _ [= <-].
    + split; [done|]. split; [|done]. intros status why [= <- _]. auto.
Qed.

(** [GetUserID] and [getUserIDFromContext] read the same key: they agree
    whenever [GetUserID] returns, and [GetUserID] panics exactly on a
    ["user_id"] that is not a [uint], where [getUserIDFromContext] answers
    0. *)
Theorem GetUserID_vs_getUserIDFromContext keys :
  (∀ uid, middleware.GetUserID keys = Some uid →
          getUserIDFromContext (contextUserID keys) = uid) ∧
  (middleware.GetUserID keys = None ↔
   ∃ v, keys !! "user_id" = Some v ∧ ∀ uid, v ≠ middleware.AUint uid) ∧
  (middleware.GetUserID keys = None →
   getUserIDFromContext (contextUserID keys) = anonymous).
Proof.
  unfold middleware.GetUserID, contextUserID.
  destruct (keys !! "user_id") as [v|] eqn:Hv.
  - destruct v as [uid|z|str|claims]; simpl.
    + split; [by intros ? [= <-]|]. split; [|done]. split; [done|].
      intros (v & [= <-] & Hne). by destruct (Hne uid).
    + split; [done|]. split; [|done]. split; [|done].
      intros _. eexists. split; [reflexivity|done].
    + split; [done|]. split; [|done]. split; [|done].
      intros _. eexists. split; [reflexivity|done].
    + split; [done|]. split; [|done]. split; [|done].
      intros _. eexists. split; [reflexivity|done].
  - simpl. split; [by intros ? [= <-]|]. split; [|done]. split; [done|].
    by intros (v & [=] & _).
Qed.

Lemma extractToken_empty_iff_witness :
  middleware.extractToken (middleware.mkRequest "Basic abc" "" (Some "")) = "".
Proof.
  apply (extractToken_empty_iff (middleware.mkRequest "Basic abc" "" (Some ""))).
  right. repeat split; auto.
Defined.

Lemma AuthRequired_sets_user_witness :
  middleware.AuthRequired demo_parser
    (middleware.mkRequest "Bearer good" "" None) ∅
  = middleware.Next
      (middleware.setClaims (middleware.mkClaims 7 "alice" "user") ∅).
Proof.
  apply (AuthRequired_sets_user demo_parser
           (middleware.mkRequest "Bearer good" "" None) ∅).
  - vm_compute. discriminate.
  - vm_compute. reflexivity.
Defined.

Lemma GetUserID_vs_getUserIDFromContext_witness :
  middleware.GetUserID {["user_id" := middleware.AString "7"]} = None ∧
  getUserIDFromContext
    (contextUserID {["user_id" := middleware.AString "7"]}) = anonymous.
Proof.
  split; [vm_compute; reflexivity|].
  apply (GetUserID_vs_getUserIDFromContext
           {["user_id" := middleware.AString "7"]}).
  vm_compute. reflexivity.
Defined.
